(** * Maintenance reports of pubtools-pulplib

    A shallow embedding of [pubtools/pulplib/_impl/model/maintenance.py]:
    the [MaintenanceEntry] and [MaintenanceReport] classes, the validated
    factory [_from_data], the exporter [_export_dict] and the two
    transformations [add] and [remove].

    Python values that reach the module untyped (the raw report, keyword
    arguments) are values of [pyval].  Effects are threaded through a small
    state-and-exception monad over a [World]: the UTC clock read by
    [iso_time_now], the report objects allocated so far and the records
    written to the module's logger. *)

From stdpp Require Import gmap strings list.

Set Warnings "-clear-no-such-hyp".

(** ** Python values *)

(** A Python [dict] keeps insertion order; it is an association list whose
    keys are pairwise distinct (see [wf_pyval]). *)
#[warnings="-register-all"]
Inductive pyval : Type :=
| PNone
| PBool (b : bool)
| PInt (z : Z)
| PStr (s : string)
| PList (l : list pyval)
| PDict (kv : list (string * pyval)).

(** The keys of every dict inside the value are pairwise distinct. *)
Fixpoint wf_pyval (v : pyval) : bool :=
  match v with
  | PList l => forallb wf_pyval l
  | PDict kv =>
      bool_decide (NoDup kv.*1) && forallb (λ p, wf_pyval p.2) kv
  | _ => true
  end.

(** [bool(v)] *)
Definition truthy (v : pyval) : bool :=
  match v with
  | PNone => false
  | PBool b => b
  | PInt z => negb (Z.eqb z 0)
  | PStr s => negb (String.eqb s "")
  | PList l => negb (Nat.eqb (length l) 0)
  | PDict kv => negb (Nat.eqb (length kv) 0)
  end.

(** [a or b] *)
Definition py_or (a b : pyval) : pyval := if truthy a then a else b.

Module PyDict.
Section ops.
Context {V : Type}.

(** [d.get(k)], [None] of [option] standing for an absent key *)
Fixpoint get (d : list (string * V)) (k : string) : option V :=
  match d with
  | [] => None
  | (k', v) :: d' => if decide (k = k') then Some v else get d' k
  end.

(** [d[k] = v] and [d.update({k: v})]: an existing key keeps its place *)
Fixpoint set (d : list (string * V)) (k : string) (v : V)
  : list (string * V) :=
  match d with
  | [] => [(k, v)]
  | (k', v') :: d' =>
      if decide (k = k') then (k, v) :: d' else (k', v') :: set d' k v
  end.

Definition keys (d : list (string * V)) : list string := d.*1.
End ops.
End PyDict.

(** ** Exceptions, the world and the monad *)

Inductive exn : Type :=
| ValueError (msg : string)
| InvalidDataException (msg : string)
| KeyError (key : string)
| TypeError
| AttributeError
| NoSuchObject.   (* model only: a reference that names no object *)

Inductive outcome (A : Type) : Type :=
| Returns (a : A)
| Raises (e : exn).
Arguments Returns {A} a.
Arguments Raises {A} e.

(** ** The two classes *)

Record MaintenanceEntry : Type := mkEntry {
  repo_id : string;
  message : pyval;
  owner : pyval;
  started : pyval;
}.

Record MaintenanceReport : Type := mkReport {
  last_updated : pyval;
  last_updated_by : pyval;
  entries : list MaintenanceEntry;
}.

(** Report objects are referred to by their index in the heap. *)
Definition ref : Type := nat.

Record World : Type := mkWorld {
  clock : string;                   (* what [iso_time_now()] returns now *)
  heap : list MaintenanceReport;    (* report objects created so far *)
  log : list string;                (* records sent to [LOG] *)
}.

Definition M (A : Type) : Type := World → outcome A * World.

#[global] Instance M_ret : MRet M := λ A a w, (Returns a, w).
#[global] Instance M_bind : MBind M := λ A B f m w,
  match m w with
  | (Returns a, w') => f a w'
  | (Raises e, w') => (Raises e, w')
  end.

Definition raise {A : Type} (e : exn) : M A := λ w, (Raises e, w).

Definition iso_time_now : M string := λ w, (Returns (clock w), w).

Definition LOG_exception (record : string) : M unit :=
  λ w, (Returns (), mkWorld (clock w) (heap w) (log w ++ [record])).

(** A new report object; objects already in the heap are never written. *)
Definition alloc (r : MaintenanceReport) : M ref :=
  λ w, (Returns (length (heap w)), mkWorld (clock w) (heap w ++ [r]) (log w)).

Definition deref (self : ref) : M MaintenanceReport :=
  λ w, match heap w !! self with
       | Some r => (Returns r, w)
       | None => (Raises NoSuchObject, w)
       end.

(** ** Module and class attributes, fixed when the module is imported *)

Record ModuleState : Type := mkModule {
  USER : option string;             (* os.environ.get("USER") *)
  HOSTNAME : option string;         (* os.environ.get("HOSTNAME") *)
  started_default : string;         (* default of MaintenanceEntry.started *)
  last_updated_default : string;    (* default of MaintenanceReport.last_updated *)
}.

(** Importing the module reads the environment and, while the two class
    bodies are executed, calls [iso_time_now()] once for each of the two
    attribute defaults. *)
Definition import_module (environ : gmap string string) : M ModuleState :=
  let user := environ !! "USER" in
  let hostname := environ !! "HOSTNAME" in
  t_entry ← iso_time_now;
  t_report ← iso_time_now;
  mret (mkModule user hostname t_entry t_report).

(** Truth value of an [Optional[str]] *)
Definition env_truthy (o : option string) : bool :=
  match o with
  | Some s => negb (String.eqb s "")
  | None => false
  end.

(** ["%s" % o] *)
Definition fmt_s (o : option string) : string :=
  match o with
  | Some s => s
  | None => "None"
  end.

Definition _OWNER (ms : ModuleState) : string :=
  if forallb env_truthy [USER ms; HOSTNAME ms]
  then fmt_s (USER ms) +:+ "@" +:+ fmt_s (HOSTNAME ms)
  else "pubtools.pulplib".

(** ** MaintenanceEntry *)

(** The attrs-generated constructor: keyword-only, [repo_id] mandatory, the
    others optional.  The default of [started] is the value computed when
    the class body ran, not a factory. *)
Definition MaintenanceEntry_new (ms : ModuleState) (repo_id : string)
    (message owner started : option pyval) : MaintenanceEntry :=
  {| repo_id := repo_id;
     message := default PNone message;
     owner := default PNone owner;
     started := default (PStr (started_default ms)) started |}.

(** [MaintenanceEntry(repo_id=repo_id, **details)] *)
Definition MaintenanceEntry_unpack (ms : ModuleState) (repo_id : string)
    (details : pyval) : M MaintenanceEntry :=
  match details with
  | PDict kw =>
      if forallb (λ k, bool_decide (k ∈ ["message"; "owner"; "started"]))
           (PyDict.keys kw)
      then mret (MaintenanceEntry_new ms repo_id (PyDict.get kw "message")
                   (PyDict.get kw "owner") (PyDict.get kw "started"))
      else raise TypeError
  | _ => raise TypeError
  end.

(** ** MaintenanceReport *)

(** The validator of [entries], run by every construction. *)
Definition check_duplicates (value : list MaintenanceEntry) : M unit :=
  let repo_ids := repo_id <$> value in
  if decide (length repo_ids ≠ size (list_to_set repo_ids : gset string))
  then raise (ValueError "Duplicate entries")
  else mret ().

(** [cls(last_updated=..., last_updated_by=..., entries=...)] *)
Definition MaintenanceReport_new (ms : ModuleState)
    (last_updated' last_updated_by' : option pyval)
    (entries' : option (list MaintenanceEntry)) : M ref :=
  let this :=
    {| last_updated := default (PStr (last_updated_default ms)) last_updated';
       last_updated_by := default PNone last_updated_by';
       entries := default [] entries' |} in
  check_duplicates (entries this);;
  alloc this.

(** [attr.evolve(self, **changes)]: a new instance built by the constructor
    from the fields of [self], overridden by the changes given. *)
Definition evolve (ms : ModuleState) (self : ref)
    (last_updated' last_updated_by' : option pyval)
    (entries' : option (list MaintenanceEntry)) : M ref :=
  this ← deref self;
  MaintenanceReport_new ms
    (Some (default (last_updated this) last_updated'))
    (Some (default (last_updated_by this) last_updated_by'))
    (Some (default (entries this) entries')).

(** [v[k]] for a string key *)
Definition getitem (v : pyval) (k : string) : M pyval :=
  match v with
  | PDict kv =>
      match PyDict.get kv k with
      | Some x => mret x
      | None => raise (KeyError k)
      end
  | _ => raise TypeError
  end.

(** [v.items()] *)
Definition items (v : pyval) : M (list (string * pyval)) :=
  match v with
  | PDict kv => mret kv
  | _ => raise AttributeError
  end.

(** A [for] loop whose body may raise. *)
Fixpoint for_each {A S : Type} (body : S → A → M S) (l : list A) (s : S)
  : M S :=
  match l with
  | [] => mret s
  | x :: l' => s' ← body s x; for_each body l' s'
  end.

(** The body of the loop of [_from_data] over [data["repos"].items()]. *)
Definition _from_data_step (ms : ModuleState)
    (entries : list MaintenanceEntry) (item : string * pyval)
  : M (list MaintenanceEntry) :=
  let '(repo_id, details) := item in
  entry ← MaintenanceEntry_unpack ms repo_id details;
  mret (entries ++ [entry]).

Section from_data.
(** [jsonschema.validate(instance=data, schema=cls._SCHEMA)]: [None] when
    the instance is valid, otherwise [str(error)] of the ValidationError
    raised.  The schema document is loaded from a resource that is not
    part of the module. *)
Variable validate : pyval → option string.

Definition _from_data (ms : ModuleState) (cls_name : string) (data : pyval)
  : M ref :=
  match validate data with
  | Some error =>
      LOG_exception (cls_name +:+ ".from_data invoked with invalid data");;
      raise (InvalidDataException error)
  | None =>
      repos ← getitem data "repos";
      repo_items ← items repos;
      entries ← for_each (_from_data_step ms) repo_items [];
      last_updated ← getitem data "last_updated";
      last_updated_by ← getitem data "last_updated_by";
      MaintenanceReport_new ms (Some last_updated) (Some last_updated_by)
        (Some entries)
  end.
End from_data.

Definition _export_dict (self : ref) : M pyval :=
  this ← deref self;
  let repos :=
    fold_left
      (λ repos entry,
         PyDict.set repos (repo_id entry)
           (PDict [("message", message entry);
                   ("owner", owner entry);
                   ("started", started entry)]))
      (entries this) [] in
  mret (PDict [("last_updated", last_updated this);
               ("last_updated_by", last_updated_by this);
               ("repos", PDict repos)]).

(** [kwargs.get(k)] *)
Definition kwargs_get (kwargs : list (string * pyval)) (k : string) : pyval :=
  default PNone (PyDict.get kwargs k).

(** One round of the filtering loop of [add]: the state is
    [(filtered_entries, entry_ids)]. *)
Definition add_filter_step
    (st : list MaintenanceEntry * gset string) (entry : MaintenanceEntry)
  : list MaintenanceEntry * gset string :=
  let '(filtered_entries, entry_ids) := st in
  if decide (repo_id entry ∈ entry_ids)
  then (filtered_entries, entry_ids)
  else (filtered_entries ++ [entry], entry_ids ∪ {[repo_id entry]}).

Definition add (ms : ModuleState) (self : ref) (repo_ids : list string)
    (kwargs : list (string * pyval)) : M ref :=
  this ← deref self;
  let message :=
    py_or (kwargs_get kwargs "message") (PStr "Maintenance mode is enabled") in
  let owner := py_or (kwargs_get kwargs "owner") (PStr (_OWNER ms)) in
  let to_add :=
    fold_left
      (λ to_add repo,
         to_add ++ [MaintenanceEntry_new ms repo (Some message) (Some owner) None])
      repo_ids [] in
  let entries := entries this ++ to_add in
  let '(filtered_entries, _) :=
    fold_left add_filter_step (reverse entries) ([], ∅) in
  now ← iso_time_now;
  evolve ms self (Some (PStr now)) (Some owner) (Some filtered_entries).

Definition remove (ms : ModuleState) (self : ref) (repo_ids : list string)
    (kwargs : list (string * pyval)) : M ref :=
  this ← deref self;
  let owner := py_or (kwargs_get kwargs "owner") (PStr (_OWNER ms)) in
  let repo_ids : gset string := list_to_set repo_ids in
  let new_entries :=
    fold_left
      (λ new_entries entry,
         if decide (repo_id entry ∉ repo_ids)
         then new_entries ++ [entry]
         else new_entries)
      (entries this) [] in
  evolve ms self None (Some owner) (Some new_entries).

(** ** Notions used by the specification *)

(** The uniqueness invariant of a report. *)
Definition valid_report (r : MaintenanceReport) : Prop :=
  NoDup (repo_id <$> entries r).

(** Only the most recently added occurrence of a [repo_id] survives: an
    entry is dropped exactly when a later entry carries the same id. *)
Fixpoint keep_last (l : list MaintenanceEntry) : list MaintenanceEntry :=
  match l with
  | [] => []
  | e :: l' =>
      if decide (repo_id e ∈ repo_id <$> l')
      then keep_last l'
      else e :: keep_last l'
  end.

(** The owner and the message an [add] or [remove] call resolves to. *)
Definition resolved_owner (ms : ModuleState) (kwargs : list (string * pyval))
  : pyval :=
  py_or (kwargs_get kwargs "owner") (PStr (_OWNER ms)).

Definition resolved_message (kwargs : list (string * pyval)) : pyval :=
  py_or (kwargs_get kwargs "message") (PStr "Maintenance mode is enabled").

(** The entry [add] creates for one id. *)
Definition added_entry (ms : ModuleState) (kwargs : list (string * pyval))
    (repo : string) : MaintenanceEntry :=
  MaintenanceEntry_new ms repo (Some (resolved_message kwargs))
    (Some (resolved_owner ms kwargs)) None.

(** [v.get(k)] on a raw value, [None] when [v] is no dict or lacks [k]. *)
Definition py_field (v : pyval) (k : string) : option pyval :=
  match v with
  | PDict kv => PyDict.get kv k
  | _ => None
  end.

Definition same_field (a b : pyval) (k : string) : Prop :=
  ∃ v, py_field a k = Some v ∧ py_field b k = Some v.

(** Logical equality of two raw reports: same [last_updated], same
    [last_updated_by], and [repos] mappings with the same keys, each
    carrying the same [message], [owner] and [started]. *)
Definition logically_equal (a b : pyval) : Prop :=
  same_field a b "last_updated" ∧
  same_field a b "last_updated_by" ∧
  ∃ ra rb,
    py_field a "repos" = Some (PDict ra) ∧
    py_field b "repos" = Some (PDict rb) ∧
    (∀ k, k ∈ PyDict.keys ra ↔ k ∈ PyDict.keys rb) ∧
    (∀ k, k ∈ PyDict.keys ra →
       ∃ da db, PyDict.get ra k = Some da ∧ PyDict.get rb k = Some db ∧
         same_field da db "message" ∧
         same_field da db "owner" ∧
         same_field da db "started").

Definition is_str (v : pyval) : bool :=
  match v with PStr _ => true | _ => false end.

Definition is_str_or_null (v : pyval) : bool :=
  match v with PStr _ | PNone => true | _ => false end.

(** Modelled from the spec: the [maintenance] schema document, which
    [load_schema] reads from a packaged resource, is missing.  The spec
    gives the types of the wire representation, a record of [repos] being
    [{message: string|null, owner: string|null, started: string}], and
    leaves to the schema document which fields are required: here a field
    that is present has its type and none is required. *)
Definition field_has_type (check : pyval → bool) (v : pyval) (k : string)
  : bool :=
  from_option check true (py_field v k).

Definition record_types_ok (d : pyval) : bool :=
  match d with
  | PDict _ =>
      field_has_type is_str_or_null d "message"
      && field_has_type is_str_or_null d "owner"
      && field_has_type is_str d "started"
  | _ => false
  end.

(** Modelled from the spec: the types of the whole document,
    [{last_updated: string, last_updated_by: string|null, repos: {<repo_id>:
    {...}}}], again with no key required. *)
Definition document_types_ok (data : pyval) : bool :=
  match data with
  | PDict _ =>
      field_has_type is_str data "last_updated"
      && field_has_type is_str_or_null data "last_updated_by"
      && match py_field data "repos" with
         | Some (PDict repos) => forallb (λ p, record_types_ok p.2) repos
         | Some _ => false
         | None => true
         end
  | _ => false
  end.

(** Modelled from the spec: a validator for those types, standing for
    [jsonschema.validate] with the missing schema document. *)
Definition maintenance_validate (data : pyval) : option string :=
  if document_types_ok data then None
  else Some "instance is not valid under the maintenance schema".

(** What [_export_dict] writes for one entry. *)
Definition item_of_entry (e : MaintenanceEntry) : string * pyval :=
  (repo_id e, PDict [("message", message e);
                     ("owner", owner e);
                     ("started", started e)]).

(** ** Running a computation *)

(** [m] run in [w] returns the report object [r] at a new reference and
    leaves every object of [w], the clock and the log as they were. *)
Definition creates (m : M ref) (w : World) (r : MaintenanceReport) : Prop :=
  m w = (Returns (length (heap w)),
         mkWorld (clock w) (heap w ++ [r]) (log w)).

(** The world [m] leaves behind. *)
Definition world_after {A : Type} (m : M A) (w : World) : World := (m w).2.

(** Unfolds one layer of the monad. *)
Ltac run := unfold creates, mbind, M_bind, mret, M_ret, raise; simpl.

(** ** Sample data *)

Definition sample_module : ModuleState :=
  mkModule (Some "alice") (Some "builder01")
    "2020-01-01T00:00:00Z" "2020-01-01T00:00:00Z".

Definition sample_report : MaintenanceReport :=
  mkReport (PStr "2020-03-01T10:00:00Z") (PStr "carol")
    [mkEntry "repoA" (PStr "testing") (PStr "carol")
       (PStr "2020-03-01T10:00:00Z")].

Definition sample_world : World :=
  mkWorld "2021-06-15T12:00:00Z" [sample_report] [].

Definition sample_raw : pyval :=
  PDict [("last_updated", PStr "2020-03-01T10:00:00Z");
         ("last_updated_by", PStr "carol");
         ("repos",
          PDict [("repoA", PDict [("message", PStr "testing");
                                  ("owner", PStr "carol");
                                  ("started", PStr "2020-03-01T10:00:00Z")]);
                 ("repoB", PDict [("started", PStr "2020-03-02T08:30:00Z");
                                  ("owner", PStr "dave");
                                  ("message", PStr "kernel update")])])].

(** [repos] maps [repoA] to a record without [started]. *)
Definition sample_no_started_raw : pyval :=
  PDict [("last_updated", PStr "2020-03-01T10:00:00Z");
         ("last_updated_by", PStr "carol");
         ("repos",
          PDict [("repoA", PDict [("message", PStr "testing");
                                  ("owner", PStr "carol")])])].

(** [last_updated] is a number. *)
Definition sample_mistyped_raw : pyval :=
  PDict [("last_updated", PInt 20200301);
         ("last_updated_by", PStr "carol");
         ("repos", PDict [])].

(** ** Notions for the remaining behaviour of the module *)

(** What [MaintenanceEntry(repo_id=k, **details)] accepts: a mapping whose
    keys are among the three optional attributes. *)
Definition details_keys_ok (details : pyval) : bool :=
  match details with
  | PDict kw =>
      forallb (λ k, bool_decide (k ∈ ["message"; "owner"; "started"]))
        (PyDict.keys kw)
  | _ => false
  end.

(** The entry that call builds: absent keys take the attribute defaults. *)
Definition unpacked_entry (ms : ModuleState) (item : string * pyval)
  : MaintenanceEntry :=
  MaintenanceEntry_new ms item.1 (py_field item.2 "message")
    (py_field item.2 "owner") (py_field item.2 "started").

(** A record that names all three optional attributes and nothing else. *)
Definition complete_record (details : pyval) : bool :=
  details_keys_ok details
  && bool_decide (is_Some (py_field details "message"))
  && bool_decide (is_Some (py_field details "owner"))
  && bool_decide (is_Some (py_field details "started")).

(** A document with the three top-level keys whose records are complete. *)
Definition complete_document (data : pyval) : bool :=
  bool_decide (is_Some (py_field data "last_updated"))
  && bool_decide (is_Some (py_field data "last_updated_by"))
  && match py_field data "repos" with
     | Some (PDict repos) => forallb (λ p, complete_record p.2) repos
     | _ => false
     end.

(** [jsonschema.validate] with the empty schema accepts every instance. *)
Definition permissive_validate (data : pyval) : option string := None.

(** [repoB] comes without [started] and without [message]. *)
Definition sample_partial_raw : pyval :=
  PDict [("last_updated", PStr "2020-03-01T10:00:00Z");
         ("last_updated_by", PNone);
         ("repos",
          PDict [("repoA", PDict [("message", PStr "testing");
                                  ("owner", PStr "carol");
                                  ("started", PStr "2020-03-01T10:00:00Z")]);
                 ("repoB", PDict [("owner", PStr "dave")])])].

(** [repoB] comes with a key that is no attribute of an entry. *)
Definition sample_unknown_key_raw : pyval :=
  PDict [("last_updated", PStr "2020-03-01T10:00:00Z");
         ("last_updated_by", PNone);
         ("repos",
          PDict [("repoA", PDict [("started", PStr "2020-03-01T10:00:00Z")]);
                 ("repoB", PDict [("ended", PStr "2020-03-02T10:00:00Z")])])].

Definition sample_two_report : MaintenanceReport :=
  mkReport (PStr "2020-03-01T10:00:00Z") (PStr "carol")
    [mkEntry "repoA" (PStr "testing") (PStr "carol")
       (PStr "2020-03-01T10:00:00Z");
     mkEntry "repoB" PNone (PStr "dave") (PStr "2020-03-02T08:30:00Z")].

Definition sample_two_world : World :=
  mkWorld "2021-06-15T12:00:00Z" [sample_two_report] [].

(** * Lists and sets *)

Section list_facts.
Implicit Types (l : list MaintenanceEntry) (ids : list string).

Lemma size_list_to_set_le ids :
  size (list_to_set ids : gset string) ≤ length ids.
Proof.
  induction ids as [|x ids IH].
  - by rewrite list_to_set_nil, size_empty.
  - rewrite list_to_set_cons, size_union_alt, size_singleton.
    assert (size (list_to_set ids ∖ {[x]} : gset string)
            ≤ size (list_to_set ids : gset string)) as Hle.
    { apply subseteq_size, subseteq_difference_l. done. }
    cbn [length]. lia.
Qed.

Lemma length_eq_size_NoDup ids :
  length ids = size (list_to_set ids : gset string) ↔ NoDup ids.
Proof.
  split; [|intros; symmetry; by apply size_list_to_set].
  induction ids as [|x ids IH]; [constructor|].
  rewrite list_to_set_cons; simpl.
  intros Hlen. destruct (decide (x ∈ ids)) as [Hin|Hnin].
  - assert ({[x]} ∪ list_to_set ids = (list_to_set ids : gset string))
      as Heq by set_solver.
    rewrite Heq in Hlen. pose proof (size_list_to_set_le ids) as Hle.
    cbn [length] in Hlen. lia.
  - constructor; [done|]. apply IH.
    rewrite size_union in Hlen by set_solver.
    rewrite size_singleton in Hlen. cbn [length] in Hlen. lia.
Qed.

Lemma to_add_loop {A B : Type} (f : A → B) (xs : list A) (acc : list B) :
  fold_left (λ acc x, acc ++ [f x]) xs acc = acc ++ (f <$> xs).
Proof.
  revert acc. induction xs as [|x xs IH]; intros acc; simpl.
  - by rewrite app_nil_r.
  - by rewrite IH, <- app_assoc.
Qed.

Lemma remove_loop (P : MaintenanceEntry → Prop) `{∀ e, Decision (P e)}
    l acc :
  fold_left (λ acc e, if decide (P e) then acc ++ [e] else acc) l acc
  = acc ++ filter P l.
Proof.
  revert acc. induction l as [|e l IH]; intros acc; simpl.
  - by rewrite app_nil_r.
  - rewrite IH. rewrite filter_cons.
    destruct (decide (P e)); [by rewrite <- app_assoc|done].
Qed.

Lemma filter_none {A : Type} (P : A → Prop) `{∀ x, Decision (P x)}
    (xs : list A) :
  (∀ x, x ∈ xs → ¬ P x) → filter P xs = [].
Proof.
  induction xs as [|x xs IH]; intros HP; [done|].
  rewrite filter_cons, decide_False by (apply HP; left).
  apply IH. intros y Hy. apply HP. by right.
Qed.

Lemma filter_all {A : Type} (P : A → Prop) `{∀ x, Decision (P x)}
    (xs : list A) :
  (∀ x, x ∈ xs → P x) → filter P xs = xs.
Proof.
  induction xs as [|x xs IH]; intros HP; [done|].
  rewrite filter_cons, decide_True by (apply HP; left).
  f_equal. apply IH. intros y Hy. apply HP. by right.
Qed.

Lemma filter_equiv {A : Type} (P Q : A → Prop)
    `{∀ x, Decision (P x)} `{∀ x, Decision (Q x)} (xs : list A) :
  (∀ x, x ∈ xs → P x ↔ Q x) → filter P xs = filter Q xs.
Proof.
  induction xs as [|x xs IH]; intros HPQ; [done|].
  rewrite !filter_cons.
  assert (filter P xs = filter Q xs) as ->.
  { apply IH. intros y Hy. apply HPQ. by right. }
  assert (P x ↔ Q x) as Hx by (apply HPQ; left).
  destruct (decide (P x)) as [HP|HP], (decide (Q x)) as [HQ|HQ];
    try done; exfalso; tauto.
Qed.

Lemma add_filter_loop l :
  fold_left add_filter_step (reverse l) ([], ∅)
  = (reverse (keep_last l), list_to_set (repo_id <$> l)).
Proof.
  induction l as [|e l IH]; [done|].
  rewrite reverse_cons, fold_left_app, IH. simpl.
  destruct (decide (repo_id e ∈ repo_id <$> l)) as [Hin|Hnin].
  - rewrite decide_True by set_solver. f_equal. set_solver.
  - rewrite decide_False by set_solver.
    rewrite reverse_cons. f_equal. set_solver.
Qed.
End list_facts.

Section keep_last_facts.
Implicit Types (l : list MaintenanceEntry) (id : string).

Lemma keep_last_ids l id :
  id ∈ repo_id <$> keep_last l ↔ id ∈ repo_id <$> l.
Proof.
  induction l as [|e l IH]; [done|]. simpl.
  destruct (decide (repo_id e ∈ repo_id <$> l)); set_solver.
Qed.

Lemma keep_last_NoDup l : NoDup (repo_id <$> keep_last l).
Proof.
  induction l as [|e l IH]; simpl; [constructor|].
  destruct (decide (repo_id e ∈ repo_id <$> l)); [done|].
  rewrite fmap_cons. constructor; [|done]. by rewrite keep_last_ids.
Qed.

Lemma keep_last_id l : NoDup (repo_id <$> l) → keep_last l = l.
Proof.
  induction l as [|e l IH]; [done|].
  rewrite fmap_cons, NoDup_cons. intros [Hnin Hnd]. simpl.
  rewrite decide_False by done. by rewrite IH.
Qed.

Lemma keep_last_app l1 l2 :
  NoDup (repo_id <$> l1) →
  (∀ id, id ∈ repo_id <$> l1 → id ∉ repo_id <$> l2) →
  keep_last (l1 ++ l2) = l1 ++ keep_last l2.
Proof.
  induction l1 as [|e l1 IH]; [done|].
  rewrite fmap_cons, NoDup_cons. intros [Hnin Hnd] Hdisj. simpl.
  rewrite decide_False.
  - rewrite IH; [done|done|]. intros id Hid. apply Hdisj. set_solver.
  - rewrite fmap_app, elem_of_app. intros [?|Hin]; [done|].
    by apply (Hdisj (repo_id e)); [set_solver|].
Qed.

Lemma keep_last_filter l id :
  filter (λ e, repo_id e = id) (keep_last l)
  = option_list (last (filter (λ e, repo_id e = id) l)).
Proof.
  induction l as [|e l IH]; [done|]. simpl.
  rewrite (filter_cons _ e l).
  destruct (decide (repo_id e ∈ repo_id <$> l)) as [Hin|Hnin].
  - rewrite IH. destruct (decide (repo_id e = id)) as [<-|]; [|done].
    apply list_elem_of_fmap in Hin as (e' & Heq & Hin).
    assert (e' ∈ filter (λ e0, repo_id e0 = repo_id e) l) as Hf.
    { by apply list_elem_of_filter. }
    destruct (filter (λ e0, repo_id e0 = repo_id e) l); [|done].
    by apply not_elem_of_nil in Hf.
  - rewrite filter_cons, IH.
    destruct (decide (repo_id e = id)) as [<-|]; [|done].
    assert (filter (λ e0, repo_id e0 = repo_id e) l = []) as ->; [|done].
    apply filter_none. intros e' Hin Heq.
    apply Hnin, list_elem_of_fmap. eauto.
Qed.
End keep_last_facts.

(** * What each operation does to the world *)

Section runs.
Variable ms : ModuleState.
Implicit Types (w : World) (r : MaintenanceReport) (self : ref).

Lemma check_duplicates_ok (es : list MaintenanceEntry) w :
  NoDup (repo_id <$> es) → check_duplicates es w = (Returns (), w).
Proof.
  intros Hnd. unfold check_duplicates.
  rewrite decide_False; [done|].
  intros Hne. by apply Hne, length_eq_size_NoDup.
Qed.

Lemma check_duplicates_raises (es : list MaintenanceEntry) w :
  ¬ NoDup (repo_id <$> es) →
  check_duplicates es w = (Raises (ValueError "Duplicate entries"), w).
Proof.
  intros Hnd. unfold check_duplicates.
  rewrite decide_True; [done|].
  intros Heq. by apply Hnd, length_eq_size_NoDup.
Qed.

Lemma MaintenanceReport_new_creates lu lub es w :
  NoDup (repo_id <$> es) →
  creates (MaintenanceReport_new ms (Some lu) (Some lub) (Some es)) w
    (mkReport lu lub es).
Proof.
  intros Hnd. unfold MaintenanceReport_new. run.
  by rewrite check_duplicates_ok.
Qed.

Lemma MaintenanceReport_new_raises lu lub es w :
  ¬ NoDup (repo_id <$> es) →
  MaintenanceReport_new ms lu lub (Some es) w
  = (Raises (ValueError "Duplicate entries"), w).
Proof.
  intros Hnd. unfold MaintenanceReport_new. run.
  by rewrite check_duplicates_raises.
Qed.

Lemma evolve_creates self r lu lub es w :
  heap w !! self = Some r →
  NoDup (repo_id <$> default (entries r) es) →
  creates (evolve ms self lu lub es) w
    (mkReport (default (last_updated r) lu)
       (default (last_updated_by r) lub) (default (entries r) es)).
Proof.
  intros Hself Hnd. unfold evolve, deref. run. rewrite Hself.
  by apply MaintenanceReport_new_creates.
Qed.

Lemma add_creates self r repo_ids kwargs w :
  heap w !! self = Some r →
  creates (add ms self repo_ids kwargs) w
    (mkReport (PStr (clock w)) (resolved_owner ms kwargs)
       (reverse (keep_last
          (entries r ++ (added_entry ms kwargs <$> repo_ids))))).
Proof.
  intros Hself. unfold add, deref, iso_time_now. run. rewrite Hself.
  rewrite to_add_loop, add_filter_loop. simpl.
  apply (evolve_creates self r (Some _) (Some _) (Some _)); [done|].
  simpl. rewrite fmap_reverse, reverse_Permutation.
  apply keep_last_NoDup.
Qed.

Lemma remove_creates self r repo_ids kwargs w :
  heap w !! self = Some r →
  valid_report r →
  creates (remove ms self repo_ids kwargs) w
    (mkReport (last_updated r) (resolved_owner ms kwargs)
       (filter (λ e, repo_id e ∉ repo_ids) (entries r))).
Proof.
  intros Hself Hvalid. unfold remove, deref. run. rewrite Hself.
  rewrite remove_loop. simpl.
  rewrite (filter_equiv _ (λ e, repo_id e ∉ repo_ids))
    by (intros; by rewrite elem_of_list_to_set).
  apply (evolve_creates self r None (Some _) (Some _)); [done|].
  simpl. eapply sublist_NoDup; [exact Hvalid|].
  apply fmap_sublist, sublist_filter.
Qed.

(** Objects that exist before an operation exist unchanged after it. *)
Lemma creates_frame (m : M ref) w r' :
  creates m w r' →
  ∃ self' w', m w = (Returns self', w') ∧ heap w' !! self' = Some r' ∧
    clock w' = clock w ∧ log w' = log w ∧
    ∀ self r, heap w !! self = Some r →
      self ≠ self' ∧ heap w' !! self = Some r.
Proof.
  intros Hm. exists (length (heap w)), (mkWorld (clock w) (heap w ++ [r']) (log w)).
  split_and!; [done| |done|done|]; simpl.
  - by rewrite lookup_app_r, Nat.sub_diag.
  - intros self r Hself. pose proof (lookup_lt_Some _ _ _ Hself).
    split; [lia|]. by rewrite lookup_app_l.
Qed.
End runs.

(** * Dictionaries *)

Section dict_facts.
Context {V : Type}.
Implicit Types (d : list (string * V)) (k : string) (v : V).

Lemma get_Some_elem d k v : PyDict.get d k = Some v → (k, v) ∈ d.
Proof.
  induction d as [|[k' v'] d IH]; [done|]. simpl.
  destruct (decide (k = k')) as [->|].
  - intros [= ->]. left.
  - intros Hget. right. by apply IH.
Qed.

Lemma get_is_Some d k : k ∈ PyDict.keys d ↔ is_Some (PyDict.get d k).
Proof.
  unfold PyDict.keys. induction d as [|[k' v'] d IH]; simpl.
  - split; [by intros ?%not_elem_of_nil|by intros [? ?]].
  - rewrite elem_of_cons. simpl. destruct (decide (k = k')) as [->|].
    + split; [by eexists|by left].
    + rewrite <- IH. naive_solver.
Qed.

Lemma set_fresh d k v : k ∉ PyDict.keys d → PyDict.set d k v = d ++ [(k, v)].
Proof.
  unfold PyDict.keys. induction d as [|[k' v'] d IH]; [done|]. simpl.
  rewrite not_elem_of_cons. simpl. intros [Hne Hnin].
  rewrite decide_False by done. by rewrite IH.
Qed.

Lemma get_fmap_values {W : Type} (h : string → V → W) d k :
  PyDict.get ((λ p, (p.1, h p.1 p.2)) <$> d) k = h k <$> PyDict.get d k.
Proof.
  induction d as [|[k' v'] d IH]; [done|]. simpl.
  by destruct (decide (k = k')) as [->|].
Qed.
End dict_facts.

Lemma export_loop (es : list MaintenanceEntry) (repos : list (string * pyval)) :
  NoDup (PyDict.keys repos ++ (repo_id <$> es)) →
  fold_left
    (λ repos entry,
       PyDict.set repos (repo_id entry)
         (PDict [("message", message entry);
                 ("owner", owner entry);
                 ("started", started entry)]))
    es repos
  = repos ++ (item_of_entry <$> es).
Proof.
  revert repos. induction es as [|e es IH]; intros repos Hnd; simpl.
  - by rewrite app_nil_r.
  - rewrite fmap_cons in Hnd. apply NoDup_app in Hnd as (Hr & Hdisj & He).
    apply NoDup_cons in He as [Hnin He].
    rewrite set_fresh by (intros Hin; apply (Hdisj _ Hin); left).
    rewrite IH; [by rewrite <- app_assoc|].
    unfold PyDict.keys in *. rewrite fmap_app. simpl.
    apply NoDup_app. split_and!.
    + apply NoDup_app. split_and!; [done| |apply NoDup_singleton].
      intros k Hk ->%list_elem_of_singleton.
      apply (Hdisj _ Hk). left.
    + intros k [Hk| ->%list_elem_of_singleton]%elem_of_app Hin; [|done].
      apply (Hdisj _ Hk). by right.
    + done.
Qed.

Lemma _export_dict_run self r w :
  heap w !! self = Some r →
  valid_report r →
  _export_dict self w
  = (Returns (PDict [("last_updated", last_updated r);
                     ("last_updated_by", last_updated_by r);
                     ("repos", PDict (item_of_entry <$> entries r))]), w).
Proof.
  intros Hself Hvalid. unfold _export_dict, deref. run. rewrite Hself.
  by rewrite export_loop.
Qed.

(** * The validated factory *)

Lemma wf_pyval_field (v : pyval) (k : string) (x : pyval) :
  wf_pyval v = true → py_field v k = Some x → wf_pyval x = true.
Proof.
  destruct v as [| | | | |kv]; try done. simpl.
  intros [_ Hall]%andb_true_iff Hget%get_Some_elem.
  rewrite forallb_forall in Hall.
  by apply (Hall (k, x)), list_elem_of_In.
Qed.

Lemma wf_pyval_keys (kv : list (string * pyval)) :
  wf_pyval (PDict kv) = true → NoDup (PyDict.keys kv).
Proof.
  simpl. intros [Hnd _]%andb_true_iff. by apply bool_decide_eq_true in Hnd.
Qed.

Section from_data_facts.
Variable validate : pyval → option string.
Variables (ms : ModuleState) (cls_name : string).

Lemma _from_data_invalid data error w :
  validate data = Some error →
  _from_data validate ms cls_name data w
  = (Raises (InvalidDataException error),
     mkWorld (clock w) (heap w)
       (log w ++ [cls_name +:+ ".from_data invoked with invalid data"])).
Proof. intros Hv. unfold _from_data. by rewrite Hv. Qed.

End from_data_facts.

(** * Entries created by [add] *)

Lemma last_constant {A : Type} (x : A) (l : list A) :
  l ≠ [] → (∀ y, y ∈ l → y = x) → last l = Some x.
Proof.
  intros Hne Hall. destruct (last l) as [y|] eqn:Hlast.
  - f_equal. apply Hall. apply last_Some in Hlast as [l' ->].
    apply elem_of_app. right. left.
  - by apply last_None in Hlast.
Qed.

Lemma add_entries_for ms kwargs (old : list MaintenanceEntry)
    (repo_ids : list string) (repo : string) :
  repo ∈ repo_ids →
  filter (λ e, repo_id e = repo)
    (reverse (keep_last (old ++ (added_entry ms kwargs <$> repo_ids))))
  = [added_entry ms kwargs repo].
Proof.
  intros Hin. rewrite filter_reverse, keep_last_filter, filter_app, last_app.
  rewrite (last_constant (added_entry ms kwargs repo)); [done| |].
  - intros Hnil.
    assert (added_entry ms kwargs repo
            ∈ filter (λ e, repo_id e = repo) (added_entry ms kwargs <$> repo_ids))
      as Hmem.
    { apply list_elem_of_filter. split; [done|]. by apply list_elem_of_fmap_2. }
    rewrite Hnil in Hmem. by apply not_elem_of_nil in Hmem.
  - intros e [Hid Hmem]%list_elem_of_filter.
    apply list_elem_of_fmap in Hmem as (id & -> & _). simpl in Hid.
    by rewrite Hid.
Qed.

Lemma add_entry_is_new ms kwargs (old : list MaintenanceEntry)
    (repo_ids : list string) (e : MaintenanceEntry) :
  e ∈ reverse (keep_last (old ++ (added_entry ms kwargs <$> repo_ids))) →
  repo_id e ∈ repo_ids →
  e = added_entry ms kwargs (repo_id e).
Proof.
  intros Hmem Hid.
  assert (e ∈ [added_entry ms kwargs (repo_id e)]) as Hsingle.
  { rewrite <- (add_entries_for ms kwargs old repo_ids) by done.
    by apply list_elem_of_filter. }
  by apply list_elem_of_singleton in Hsingle.
Qed.

Lemma added_entry_ids ms kwargs (repo_ids : list string) :
  repo_id <$> (added_entry ms kwargs <$> repo_ids) = repo_ids.
Proof.
  induction repo_ids as [|x xs IH]; [done|].
  rewrite !fmap_cons. by rewrite IH.
Qed.

Lemma _OWNER_nonempty ms : _OWNER ms ≠ "".
Proof.
  unfold _OWNER. simpl.
  destruct (USER ms) as [[|c u]|], (HOSTNAME ms) as [[|c' h]|]; by simpl.
Qed.

Lemma py_or_falsy (a b : pyval) : truthy a = false → py_or a b = b.
Proof. unfold py_or. by intros ->. Qed.

Lemma py_or_not_empty (a : pyval) (s : string) :
  s ≠ "" → py_or a (PStr s) ≠ PStr "".
Proof.
  unfold py_or. intros Hs. destruct (truthy a) eqn:Ha.
  - by intros ->.
  - by intros [= ->].
Qed.


(** * Properties of the specification *)

(** C3.  [add] returns a report whose [last_updated] is the current time
    and whose [last_updated_by] is the resolved owner; [remove] returns a
    report whose [last_updated_by] is the resolved owner and whose
    [last_updated] is the one of the report it was called on.  After either
    call the report it was called on is still in the heap, unchanged. *)
Theorem add_remove_bookkeeping ms w self r repo_ids kwargs :
  heap w !! self = Some r →
  (∃ r', creates (add ms self repo_ids kwargs) w r' ∧
     last_updated r' = PStr (clock w) ∧
     last_updated_by r' = resolved_owner ms kwargs ∧
     heap (world_after (add ms self repo_ids kwargs) w) !! self = Some r) ∧
  (valid_report r →
   ∃ r', creates (remove ms self repo_ids kwargs) w r' ∧
     last_updated_by r' = resolved_owner ms kwargs ∧
     last_updated r' = last_updated r ∧
     heap (world_after (remove ms self repo_ids kwargs) w) !! self = Some r).
Proof.
  intros Hself. split; [|intros Hvalid].
  - pose proof (add_creates ms self r repo_ids kwargs w Hself) as Hadd.
    eexists. split_and!; [exact Hadd|done|done|].
    unfold world_after. rewrite Hadd. simpl. by apply lookup_app_l_Some.
  - pose proof (remove_creates ms self r repo_ids kwargs w Hself Hvalid) as Hrem.
    eexists. split_and!; [exact Hrem|done|done|].
    unfold world_after. rewrite Hrem. simpl. by apply lookup_app_l_Some.
Qed.

Lemma sample_report_valid : valid_report sample_report.
Proof. apply NoDup_singleton. Qed.

Lemma add_remove_bookkeeping_witness :
  heap sample_world !! 0 = Some sample_report ∧
  valid_report sample_report ∧
  (∃ r', creates (add sample_module 0 ["repoB"] [("owner", PStr "bob")])
           sample_world r' ∧
     last_updated r' = PStr "2021-06-15T12:00:00Z" ∧
     last_updated_by r' = PStr "bob") ∧
  (∃ r', creates (remove sample_module 0 ["repoB"] [("owner", PStr "bob")])
           sample_world r' ∧
     last_updated_by r' = PStr "bob" ∧
     last_updated r' = PStr "2020-03-01T10:00:00Z").
Proof.
  destruct (add_remove_bookkeeping sample_module sample_world 0 sample_report
              ["repoB"] [("owner", PStr "bob")] eq_refl) as [Hadd Hrem].
  split_and!; [reflexivity|exact sample_report_valid| |].
  - destruct Hadd as (r' & Hc & Hlu & Hlub & _).
    exists r'. exact (conj Hc (conj Hlu Hlub)).
  - destruct (Hrem sample_report_valid) as (r' & Hc & Hlub & Hlu & _).
    exists r'. exact (conj Hc (conj Hlub Hlu)).
Defined.

(** C4.  Constructing a report from entries two of which share a
    [repo_id] raises [ValueError("Duplicate entries")]; [add] on any report,
    and [remove] on a report with pairwise distinct ids, return a report
    with pairwise distinct ids, so the constructor they go through does not
    raise. *)
Theorem entries_unique_invariant ms w :
  (∀ lu lub es i j e1 e2,
     i ≠ j → es !! i = Some e1 → es !! j = Some e2 →
     repo_id e1 = repo_id e2 →
     MaintenanceReport_new ms lu lub (Some es) w
     = (Raises (ValueError "Duplicate entries"), w)) ∧
  (∀ self r repo_ids kwargs,
     heap w !! self = Some r →
     ∃ r', creates (add ms self repo_ids kwargs) w r' ∧ valid_report r') ∧
  (∀ self r repo_ids kwargs,
     heap w !! self = Some r → valid_report r →
     ∃ r', creates (remove ms self repo_ids kwargs) w r' ∧ valid_report r').
Proof.
  split_and!.
  - intros lu lub es i j e1 e2 Hij H1 H2 Heq.
    apply MaintenanceReport_new_raises. intros Hnd. apply Hij.
    eapply NoDup_lookup; [exact Hnd| |]; rewrite list_lookup_fmap.
    + by rewrite H1.
    + by rewrite H2, Heq.
  - intros self r repo_ids kwargs Hself.
    eexists. split; [by apply add_creates|].
    unfold valid_report. simpl. rewrite fmap_reverse, reverse_Permutation.
    apply keep_last_NoDup.
  - intros self r repo_ids kwargs Hself Hvalid.
    eexists. split; [by apply remove_creates|].
    unfold valid_report. simpl. eapply sublist_NoDup; [exact Hvalid|].
    apply fmap_sublist, sublist_filter.
Qed.

Lemma entries_unique_invariant_witness :
  MaintenanceReport_new sample_module None None
    (Some [mkEntry "repoA" PNone PNone PNone;
           mkEntry "repoB" PNone PNone PNone;
           mkEntry "repoA" (PStr "again") PNone PNone]) sample_world
  = (Raises (ValueError "Duplicate entries"), sample_world) ∧
  (∃ r', creates (add sample_module 0 ["repoA"; "repoB"; "repoA"] [])
           sample_world r' ∧ valid_report r') ∧
  (∃ r', creates (remove sample_module 0 ["repoA"] []) sample_world r' ∧
         valid_report r').
Proof.
  destruct (entries_unique_invariant sample_module sample_world)
    as (Hnew & Hadd & Hrem).
  split_and!.
  - apply (Hnew None None _ 0 2 (mkEntry "repoA" PNone PNone PNone)
             (mkEntry "repoA" (PStr "again") PNone PNone));
      [lia|reflexivity|reflexivity|reflexivity].
  - exact (Hadd 0 sample_report _ _ eq_refl).
  - exact (Hrem 0 sample_report _ _ eq_refl sample_report_valid).
Defined.

(** C5.  [remove] returns a new report whose entries are the entries of
    the report it was called on whose [repo_id] is not among [repo_ids], in
    their original order; only membership in [repo_ids] matters.  When no id
    of [repo_ids] occurs in the report the entries are unchanged, and
    [last_updated_by] is the resolved owner all the same. *)
Theorem remove_filters_entries ms w self r repo_ids kwargs :
  heap w !! self = Some r →
  valid_report r →
  ∃ r', creates (remove ms self repo_ids kwargs) w r' ∧
    entries r' = filter (λ e, repo_id e ∉ repo_ids) (entries r) ∧
    last_updated_by r' = resolved_owner ms kwargs ∧
    ((∀ id, id ∈ repo_ids → id ∉ repo_id <$> entries r) →
     entries r' = entries r) ∧
    (∀ repo_ids2, (∀ id, id ∈ repo_ids ↔ id ∈ repo_ids2) →
       remove ms self repo_ids2 kwargs w = remove ms self repo_ids kwargs w).
Proof.
  intros Hself Hvalid.
  pose proof (remove_creates ms self r repo_ids kwargs w Hself Hvalid) as Hrem.
  eexists. split_and!; [exact Hrem|done|done| |].
  - intros Hnone. simpl. apply filter_all. intros e He Hin.
    apply (Hnone _ Hin). by apply list_elem_of_fmap_2.
  - intros repo_ids2 Hsame. rewrite Hrem.
    rewrite (remove_creates ms self r repo_ids2 kwargs w Hself Hvalid).
    do 5 f_equal. apply filter_equiv. intros e _. by rewrite Hsame.
Qed.

Lemma remove_filters_entries_witness :
  heap sample_world !! 0 = Some sample_report ∧
  valid_report sample_report ∧
  ∃ r', creates (remove sample_module 0 ["repoZ"; "repoZ"] []) sample_world r' ∧
    entries r' = entries sample_report ∧
    last_updated_by r' = PStr "alice@builder01".
Proof.
  split_and!; [reflexivity|exact sample_report_valid|].
  destruct (remove_filters_entries sample_module sample_world 0 sample_report
              ["repoZ"; "repoZ"] [] eq_refl sample_report_valid)
    as (r' & Hc & _ & Hlub & Hsame & _).
  exists r'. split_and!; [exact Hc| |exact Hlub].
  apply Hsame. intros id Hid Hin.
  apply list_elem_of_singleton in Hin as ->.
  repeat (apply elem_of_cons in Hid as [Hid|Hid]; [discriminate Hid|]).
  by apply not_elem_of_nil in Hid.
Defined.

(** C6.  For an id given to [add], the returned report has exactly one
    entry with that id, and it is the entry this call created, with the
    call's resolved message and owner, whether or not the report already had
    an entry for the id.  The returned entries are the old entries followed
    by the new ones, each entry dropped when a later one has its id, read
    backwards: of several occurrences of an id the last one stays. *)
Theorem add_replaces_existing_entry ms w self r repo_ids kwargs repo :
  heap w !! self = Some r →
  repo ∈ repo_ids →
  ∃ r', creates (add ms self repo_ids kwargs) w r' ∧
    filter (λ e, repo_id e = repo) (entries r')
    = [{| repo_id := repo;
          message := resolved_message kwargs;
          owner := resolved_owner ms kwargs;
          started := PStr (started_default ms) |}] ∧
    entries r'
    = reverse (keep_last (entries r ++ (added_entry ms kwargs <$> repo_ids))).
Proof.
  intros Hself Hin. eexists. split_and!; [by apply add_creates| |done].
  simpl. by rewrite add_entries_for.
Qed.

(** [report.add(["repoA"]).add(["repoA"], owner="bob")] on an empty report:
    one entry for [repoA], owned by [bob]. *)
Lemma add_replaces_existing_entry_witness :
  let w0 := mkWorld "2021-06-15T12:00:00Z"
              [mkReport (PStr "2021-06-15T11:00:00Z") PNone []] [] in
  let w1 := world_after (add sample_module 0 ["repoA"] []) w0 in
  heap w1 !! 1
  = Some (mkReport (PStr "2021-06-15T12:00:00Z") (PStr "alice@builder01")
            [mkEntry "repoA" (PStr "Maintenance mode is enabled")
               (PStr "alice@builder01") (PStr "2020-01-01T00:00:00Z")]) ∧
  "repoA" ∈ ["repoA"] ∧
  ∃ r', creates (add sample_module 1 ["repoA"] [("owner", PStr "bob")]) w1 r' ∧
    entries r' = [mkEntry "repoA" (PStr "Maintenance mode is enabled")
                    (PStr "bob") (PStr "2020-01-01T00:00:00Z")].
Proof.
  intros w0 w1.
  assert (heap w1 !! 1
          = Some (mkReport (PStr "2021-06-15T12:00:00Z") (PStr "alice@builder01")
                    [mkEntry "repoA" (PStr "Maintenance mode is enabled")
                       (PStr "alice@builder01") (PStr "2020-01-01T00:00:00Z")]))
    as Hself by (vm_compute; reflexivity).
  assert ("repoA" ∈ ["repoA"]) as Hin by left.
  split_and!; [exact Hself|exact Hin|].
  destruct (add_replaces_existing_entry sample_module w1 1 _ ["repoA"]
              [("owner", PStr "bob")] "repoA" Hself Hin)
    as (r' & Hc & _ & Hentries).
  exists r'. split; [exact Hc|]. rewrite Hentries. vm_compute. reflexivity.
Defined.

(** C9, as the code has it.  When no id of [repo_ids] is in the report, the
    entries of the report [add] returns are the new entries in reverse
    [repo_ids] order (one for each distinct id, an id given several times
    standing at its last occurrence), followed by the entries of the report
    in reverse order. *)
Theorem add_entries_reversed ms w self r repo_ids kwargs :
  heap w !! self = Some r →
  valid_report r →
  (∀ id, id ∈ repo_ids → id ∉ repo_id <$> entries r) →
  ∃ r', creates (add ms self repo_ids kwargs) w r' ∧
    entries r'
    = reverse (keep_last (added_entry ms kwargs <$> repo_ids))
      ++ reverse (entries r) ∧
    (NoDup repo_ids →
     entries r'
     = reverse (added_entry ms kwargs <$> repo_ids) ++ reverse (entries r)).
Proof.
  intros Hself Hvalid Hfresh.
  eexists. split; [by apply add_creates|]. simpl.
  assert (keep_last (entries r ++ (added_entry ms kwargs <$> repo_ids))
          = entries r ++ keep_last (added_entry ms kwargs <$> repo_ids)) as ->.
  { apply keep_last_app; [done|]. intros id Hold Hnew.
    rewrite added_entry_ids in Hnew. by apply (Hfresh id). }
  rewrite reverse_app. split; [done|].
  intros Hnd. rewrite keep_last_id; [done|]. by rewrite added_entry_ids.
Qed.

Lemma add_entries_reversed_witness :
  heap sample_world !! 0 = Some sample_report ∧
  valid_report sample_report ∧
  (∀ id, id ∈ ["repoB"; "repoC"] → id ∉ repo_id <$> entries sample_report) ∧
  ∃ r', creates (add sample_module 0 ["repoB"; "repoC"] []) sample_world r' ∧
    repo_id <$> entries r' = ["repoC"; "repoB"; "repoA"].
Proof.
  assert (∀ id, id ∈ ["repoB"; "repoC"] →
                id ∉ repo_id <$> entries sample_report) as Hfresh.
  { intros id Hid Hin. apply list_elem_of_singleton in Hin as ->.
    repeat (apply elem_of_cons in Hid as [Hid|Hid]; [discriminate Hid|]).
    by apply not_elem_of_nil in Hid. }
  split_and!; [reflexivity|exact sample_report_valid|exact Hfresh|].
  destruct (add_entries_reversed sample_module sample_world 0 sample_report
              ["repoB"; "repoC"] [] eq_refl sample_report_valid Hfresh)
    as (r' & Hc & Hentries & _).
  exists r'. split; [exact Hc|]. rewrite Hentries. vm_compute. reflexivity.
Defined.

(** Counterexample to C9 as stated: adding [repoB] to a report that holds [repoA] gives
    the entries [repoB; repoA], not the old entry followed by the new one. *)
Lemma add_order_counterexample :
  (∀ id, id ∈ ["repoB"] → id ∉ repo_id <$> entries sample_report) ∧
  ∃ r', creates (add sample_module 0 ["repoB"] []) sample_world r' ∧
    repo_id <$> entries r' = ["repoB"; "repoA"] ∧
    entries r'
    ≠ entries sample_report ++ (added_entry sample_module [] <$> ["repoB"]).
Proof.
  split.
  - intros id Hid Hin. apply list_elem_of_singleton in Hin as ->.
    repeat (apply elem_of_cons in Hid as [Hid|Hid]; [discriminate Hid|]).
    by apply not_elem_of_nil in Hid.
  - eexists. split; [apply (add_creates _ _ sample_report); reflexivity|].
    split; [vm_compute; reflexivity|]. vm_compute. discriminate.
Qed.

(** C8, as the code has it.  [add] returns a report with exactly one entry
    for each id of [repo_ids].  Without a [message] keyword every such entry
    carries the literal ["Maintenance mode is enabled"]; without an [owner]
    keyword every such entry's owner, and [last_updated_by] of the result,
    are the default owner.  The default owner is [USER@HOSTNAME] when both
    variables are set to non-empty strings, and ["pubtools.pulplib"] when
    either is unset or empty. *)
Theorem add_defaults_resolution ms w self r repo_ids kwargs :
  heap w !! self = Some r →
  ∃ r', creates (add ms self repo_ids kwargs) w r' ∧
    (∀ repo, repo ∈ repo_ids →
       ∃ e, filter (λ e, repo_id e = repo) (entries r') = [e]) ∧
    (PyDict.get kwargs "message" = None →
     ∀ e, e ∈ entries r' → repo_id e ∈ repo_ids →
       message e = PStr "Maintenance mode is enabled") ∧
    (PyDict.get kwargs "owner" = None →
     (∀ e, e ∈ entries r' → repo_id e ∈ repo_ids →
        owner e = PStr (_OWNER ms)) ∧
     last_updated_by r' = PStr (_OWNER ms)) ∧
    (∀ u h, USER ms = Some u → HOSTNAME ms = Some h → u ≠ "" → h ≠ "" →
       _OWNER ms = u +:+ "@" +:+ h) ∧
    (USER ms = None ∨ USER ms = Some "" ∨
     HOSTNAME ms = None ∨ HOSTNAME ms = Some "" →
     _OWNER ms = "pubtools.pulplib").
Proof.
  intros Hself. eexists. split; [by apply add_creates|]. simpl.
  split_and!.
  - intros repo Hin. eexists. by apply add_entries_for.
  - intros Hnone e He Hid. rewrite (add_entry_is_new _ _ _ _ _ He Hid). simpl.
    unfold resolved_message, kwargs_get. by rewrite Hnone.
  - intros Hnone. unfold resolved_owner, kwargs_get. rewrite Hnone.
    split; [|done]. intros e He Hid.
    rewrite (add_entry_is_new _ _ _ _ _ He Hid). simpl.
    unfold resolved_owner, kwargs_get. by rewrite Hnone.
  - intros u h Hu Hh Hune Hhne. unfold _OWNER. rewrite Hu, Hh. simpl.
    by destruct u, h.
  - unfold _OWNER. simpl. intros [->|[->|[Hh|Hh]]]; try done; rewrite Hh.
    + by rewrite andb_false_r.
    + by rewrite andb_false_r.
Qed.

Lemma add_defaults_resolution_witness :
  heap sample_world !! 0 = Some sample_report ∧
  ∃ r' e, creates (add sample_module 0 ["repoB"] []) sample_world r' ∧
    filter (λ e, repo_id e = "repoB") (entries r') = [e] ∧
    message e = PStr "Maintenance mode is enabled" ∧
    owner e = PStr "alice@builder01" ∧
    last_updated_by r' = PStr "alice@builder01".
Proof.
  split; [reflexivity|].
  destruct (add_defaults_resolution sample_module sample_world 0 sample_report
              ["repoB"] [] eq_refl) as (r' & Hc & Hone & Hmsg & Howner & _).
  destruct (Howner eq_refl) as [Hentries Hlub].
  assert ("repoB" ∈ ["repoB"]) as Hin by left.
  destruct (Hone "repoB" Hin) as [e Hf].
  assert (e ∈ filter (λ e, repo_id e = "repoB") (entries r')) as Hmem
    by (rewrite Hf; left).
  apply list_elem_of_filter in Hmem as [Hid He].
  assert (repo_id e ∈ ["repoB"]) as Hid' by (rewrite Hid; exact Hin).
  exists r', e.
  exact (conj Hc (conj Hf (conj (Hmsg eq_refl e He Hid')
           (conj (Hentries e He Hid') Hlub)))).
Defined.

(** Counterexample to C8 as stated, a variable set but empty: with [USER] set
    to the empty string and [HOSTNAME] to [builder01] the default owner is
    the fallback literal, not ["@builder01"]. *)
Lemma default_owner_counterexample :
  let w := mkWorld "2020-01-01T00:00:00Z" [] [] in
  ∃ ms,
    import_module {["USER" := ""; "HOSTNAME" := "builder01"]} w
    = (Returns ms, w) ∧
    USER ms = Some "" ∧ HOSTNAME ms = Some "builder01" ∧
    _OWNER ms = "pubtools.pulplib" ∧
    _OWNER ms ≠ "" +:+ "@" +:+ "builder01".
Proof.
  eexists. split; [vm_compute; reflexivity|].
  split_and!; [reflexivity|reflexivity|reflexivity|discriminate].
Qed.

(** C10.  A falsy keyword value counts as no value.  With a falsy
    [message] ([None] and the empty string are falsy) the entries [add]
    creates carry the default literal; with a falsy [owner] they carry the
    default owner, which is also [last_updated_by] of the result of [add]
    and of [remove]; with both falsy the calls behave as without keywords.
    [add] returns exactly one entry for each id of [repo_ids], and none of
    them has an empty-string message or owner. *)
Theorem falsy_arguments_use_defaults ms w self r repo_ids kwargs :
  heap w !! self = Some r →
  valid_report r →
  truthy PNone = false ∧ truthy (PStr "") = false ∧
  ∃ r_add r_rem,
    creates (add ms self repo_ids kwargs) w r_add ∧
    creates (remove ms self repo_ids kwargs) w r_rem ∧
    (∀ repo, repo ∈ repo_ids →
       ∃ e, filter (λ e, repo_id e = repo) (entries r_add) = [e]) ∧
    (truthy (kwargs_get kwargs "message") = false →
     ∀ e, e ∈ entries r_add → repo_id e ∈ repo_ids →
       message e = PStr "Maintenance mode is enabled") ∧
    (truthy (kwargs_get kwargs "owner") = false →
     (∀ e, e ∈ entries r_add → repo_id e ∈ repo_ids →
        owner e = PStr (_OWNER ms)) ∧
     last_updated_by r_add = PStr (_OWNER ms) ∧
     last_updated_by r_rem = PStr (_OWNER ms) ∧
     remove ms self repo_ids kwargs w = remove ms self repo_ids [] w) ∧
    (truthy (kwargs_get kwargs "message") = false →
     truthy (kwargs_get kwargs "owner") = false →
     add ms self repo_ids kwargs w = add ms self repo_ids [] w) ∧
    (∀ e, e ∈ entries r_add → repo_id e ∈ repo_ids →
       message e ≠ PStr "" ∧ owner e ≠ PStr "").
Proof.
  intros Hself Hvalid. split; [done|]. split; [done|].
  pose proof (add_creates ms self r repo_ids kwargs w Hself) as Hadd.
  pose proof (remove_creates ms self r repo_ids kwargs w Hself Hvalid) as Hrem.
  eexists _, _. split; [exact Hadd|]. split; [exact Hrem|]. simpl.
  split_and!.
  - intros repo Hin. eexists. by apply add_entries_for.
  - intros Hm e He Hid. rewrite (add_entry_is_new _ _ _ _ _ He Hid). simpl.
    by apply py_or_falsy.
  - intros Ho. assert (resolved_owner ms kwargs = PStr (_OWNER ms)) as Hres
      by by apply py_or_falsy.
    split_and!; [|done|done|].
    + intros e He Hid. by rewrite (add_entry_is_new _ _ _ _ _ He Hid).
    + rewrite Hrem, (remove_creates ms self r repo_ids [] w Hself Hvalid).
      by rewrite Hres.
  - intros Hm Ho. rewrite Hadd, (add_creates ms self r repo_ids [] w Hself).
    assert (added_entry ms kwargs = added_entry ms []) as Hsame.
    { unfold added_entry, resolved_message, resolved_owner.
      by rewrite !py_or_falsy. }
    rewrite Hsame. unfold resolved_owner. by rewrite !py_or_falsy.
  - intros e He Hid. rewrite (add_entry_is_new _ _ _ _ _ He Hid). simpl.
    split; apply py_or_not_empty; [done|apply _OWNER_nonempty].
Qed.

Lemma falsy_arguments_use_defaults_witness :
  let kwargs := [("message", PStr ""); ("owner", PNone)] in
  heap sample_world !! 0 = Some sample_report ∧
  valid_report sample_report ∧
  add sample_module 0 ["repoB"] kwargs sample_world
  = add sample_module 0 ["repoB"] [] sample_world ∧
  remove sample_module 0 ["repoB"] kwargs sample_world
  = remove sample_module 0 ["repoB"] [] sample_world ∧
  ∃ r_add e,
    creates (add sample_module 0 ["repoB"] kwargs) sample_world r_add ∧
    filter (λ e, repo_id e = "repoB") (entries r_add) = [e] ∧
    message e = PStr "Maintenance mode is enabled" ∧
    owner e = PStr "alice@builder01".
Proof.
  intros kwargs.
  destruct (falsy_arguments_use_defaults sample_module sample_world 0
              sample_report ["repoB"] kwargs eq_refl sample_report_valid)
    as (_ & _ & r_add & r_rem & Hc & _ & Hone & Hmsg & Howner & Hboth & _).
  destruct (Howner eq_refl) as (Hentries & _ & _ & Hrem).
  assert ("repoB" ∈ ["repoB"]) as Hin by left.
  destruct (Hone "repoB" Hin) as [e Hf].
  assert (e ∈ filter (λ e, repo_id e = "repoB") (entries r_add)) as Hmem
    by (rewrite Hf; left).
  apply list_elem_of_filter in Hmem as [Hid He].
  assert (repo_id e ∈ ["repoB"]) as Hid' by (rewrite Hid; exact Hin).
  split_and!; [reflexivity|exact sample_report_valid| | |].
  - exact (Hboth eq_refl eq_refl).
  - exact Hrem.
  - exists r_add, e.
    exact (conj Hc (conj Hf (conj (Hmsg eq_refl e He Hid')
             (Hentries e He Hid')))).
Defined.

(** The default of [started] is the clock reading of the import. *)
Lemma import_module_started_default environ w ms w' :
  import_module environ w = (Returns ms, w') →
  started_default ms = clock w ∧ w' = w.
Proof. unfold import_module, iso_time_now. run. by intros [= <- <-]. Qed.

(** Whatever the clock reads when [add] is called, the entries it creates
    carry that default. *)
Lemma add_started_default ms w self r repo_ids kwargs :
  heap w !! self = Some r →
  ∃ r', creates (add ms self repo_ids kwargs) w r' ∧
    ∀ e, e ∈ entries r' → repo_id e ∈ repo_ids →
      started e = PStr (started_default ms).
Proof.
  intros Hself. eexists. split; [by apply add_creates|].
  intros e He Hid. by rewrite (add_entry_is_new _ _ _ _ _ He Hid).
Qed.

(** C2.  The module is imported at [2020-01-01T00:00:00Z] and [add] is
    called on an empty report at [2021-06-15T12:00:00Z]: the new entry's
    [started] is the time of the import, while [last_updated] of the result
    is the time of the call. *)
Theorem add_started_is_import_time :
  let w_import := mkWorld "2020-01-01T00:00:00Z" [] [] in
  let w_call :=
    mkWorld "2021-06-15T12:00:00Z"
      [mkReport (PStr "2020-01-01T00:00:00Z") PNone []] [] in
  ∃ ms r',
    import_module ∅ w_import = (Returns ms, w_import) ∧
    creates (add ms 0 ["repoA"] []) w_call r' ∧
    started <$> entries r' = [PStr "2020-01-01T00:00:00Z"] ∧
    started <$> entries r' ≠ [PStr (clock w_call)] ∧
    last_updated r' = PStr (clock w_call).
Proof.
  intros w_import w_call. eexists _, _.
  split; [vm_compute; reflexivity|].
  split; [apply (add_creates _ 0 (mkReport (PStr "2020-01-01T00:00:00Z") PNone []));
          reflexivity|].
  split_and!; [vm_compute; reflexivity|vm_compute; discriminate|reflexivity].
Qed.

Lemma Forall2_repo_ids (P : MaintenanceEntry → string * pyval → Prop)
    (es : list MaintenanceEntry) (repos : list (string * pyval)) :
  Forall2 (λ e item, repo_id e = item.1 ∧ P e item) es repos →
  repo_id <$> es = PyDict.keys repos.
Proof.
  unfold PyDict.keys. induction 1 as [|e item es repos [Hid _] _ IH]; [done|].
  rewrite !fmap_cons. by rewrite Hid, IH.
Qed.

(** * Further facts about the scan of [add] *)

Section more_keep_last.
Implicit Types (l : list MaintenanceEntry).

(** Selecting entries by their id commutes with dropping superseded ones. *)
Lemma keep_last_filter_ids (P : string → Prop) `{∀ x, Decision (P x)} l :
  filter (λ e, P (repo_id e)) (keep_last l)
  = keep_last (filter (λ e, P (repo_id e)) l).
Proof.
  induction l as [|e l IH]; [done|]. simpl.
  rewrite (filter_cons _ e l).
  destruct (decide (repo_id e ∈ repo_id <$> l)) as [Hin|Hnin].
  - rewrite IH. destruct (decide (P (repo_id e))) as [HP|HP]; [|done].
    simpl. rewrite decide_True; [done|].
    apply list_elem_of_fmap in Hin as (e' & Heq & Hin).
    apply list_elem_of_fmap. exists e'. split; [done|].
    apply list_elem_of_filter. split; [by rewrite <- Heq|done].
  - rewrite filter_cons, IH.
    destruct (decide (P (repo_id e))) as [HP|HP]; [|done].
    simpl. rewrite decide_False; [done|].
    intros (e' & Heq & Hin%list_elem_of_filter)%list_elem_of_fmap.
    apply Hnin, list_elem_of_fmap. exists e'. by destruct Hin.
Qed.

Lemma filter_added_entries ms kwargs (P : string → Prop)
    `{∀ x, Decision (P x)} (repo_ids : list string) :
  filter (λ e, P (repo_id e)) (added_entry ms kwargs <$> repo_ids)
  = added_entry ms kwargs <$> filter P repo_ids.
Proof.
  induction repo_ids as [|x xs IH]; [done|].
  rewrite fmap_cons, !filter_cons. simpl.
  destruct (decide (P x)); by rewrite IH.
Qed.

Lemma keep_last_filter_notin (ids : list string) l :
  filter (λ e, repo_id e ∉ ids) (keep_last l)
  = keep_last (filter (λ e, repo_id e ∉ ids) l).
Proof. exact (keep_last_filter_ids (λ id, id ∉ ids) l). Qed.

Lemma filter_added_notin ms kwargs (ids repo_ids : list string) :
  filter (λ e, repo_id e ∉ ids) (added_entry ms kwargs <$> repo_ids)
  = added_entry ms kwargs <$> filter (λ id, id ∉ ids) repo_ids.
Proof. exact (filter_added_entries ms kwargs (λ id, id ∉ ids) repo_ids). Qed.

Lemma NoDup_length_size (ids : list string) :
  NoDup ids → length ids = size (list_to_set ids : gset string).
Proof. intros. by apply length_eq_size_NoDup. Qed.
End more_keep_last.

(** * Further facts about exported dictionaries *)

Lemma get_item_of_entry (es : list MaintenanceEntry) (e : MaintenanceEntry) :
  NoDup (repo_id <$> es) → e ∈ es →
  PyDict.get (item_of_entry <$> es) (repo_id e) = Some (item_of_entry e).2.
Proof.
  induction es as [|e0 es IH]; [by intros _ ?%not_elem_of_nil|].
  rewrite !fmap_cons, NoDup_cons. intros [Hnin Hnd] Hin. simpl.
  destruct (decide (repo_id e = repo_id e0)) as [Heq|Hne].
  - apply elem_of_cons in Hin as [->|Hin]; [done|].
    destruct Hnin. rewrite <- Heq. by apply list_elem_of_fmap_2.
  - apply elem_of_cons in Hin as [->|Hin]; [done|]. by apply IH.
Qed.

Lemma get_item_absent (es : list MaintenanceEntry) (k : string) :
  k ∉ repo_id <$> es → PyDict.get (item_of_entry <$> es) k = None.
Proof.
  induction es as [|e0 es IH]; [done|].
  rewrite !fmap_cons, not_elem_of_cons. intros [Hne Hnin]. simpl.
  rewrite decide_False by done. by apply IH.
Qed.

Lemma get_item_filter (P : string → Prop) `{∀ x, Decision (P x)}
    (es : list MaintenanceEntry) (k : string) :
  P k →
  PyDict.get (item_of_entry <$> filter (λ e, P (repo_id e)) es) k
  = PyDict.get (item_of_entry <$> es) k.
Proof.
  intros HP. induction es as [|e0 es IH]; [done|].
  rewrite filter_cons, (fmap_cons item_of_entry). simpl.
  destruct (decide (P (repo_id e0))) as [HP0|HP0].
  - rewrite fmap_cons. simpl. by rewrite IH.
  - rewrite IH. rewrite decide_False; [done|]. by intros ->.
Qed.

Lemma keys_item_of_entry (es : list MaintenanceEntry) :
  PyDict.keys (item_of_entry <$> es) = repo_id <$> es.
Proof. unfold PyDict.keys. by rewrite <- list_fmap_compose. Qed.

(** * Further facts about the factory *)

Lemma MaintenanceEntry_unpack_ok ms (k : string) (d : pyval) w :
  details_keys_ok d = true →
  MaintenanceEntry_unpack ms k d w = (Returns (unpacked_entry ms (k, d)), w).
Proof.
  destruct d as [| | | | |kw]; try done. simpl. intros Hkeys.
  by rewrite Hkeys.
Qed.

Lemma MaintenanceEntry_unpack_bad ms (k : string) (d : pyval) w :
  details_keys_ok d = false →
  MaintenanceEntry_unpack ms k d w = (Raises TypeError, w).
Proof.
  destruct d as [| | | | |kw]; try done. simpl. intros Hkeys.
  by rewrite Hkeys.
Qed.

Lemma from_data_loop_ok ms (repos : list (string * pyval))
    (acc : list MaintenanceEntry) w :
  forallb (λ p, details_keys_ok p.2) repos = true →
  for_each (_from_data_step ms) repos acc w
  = (Returns (acc ++ (unpacked_entry ms <$> repos)), w).
Proof.
  revert acc. induction repos as [|[k d] repos IH]; intros acc Hall; simpl.
  - by rewrite app_nil_r.
  - simpl in Hall. apply andb_true_iff in Hall as [Hd Hall].
    unfold _from_data_step at 1. run.
    rewrite MaintenanceEntry_unpack_ok by done.
    rewrite IH by done. by rewrite <- app_assoc.
Qed.

Lemma from_data_loop_bad ms (repos : list (string * pyval))
    (acc : list MaintenanceEntry) w :
  forallb (λ p, details_keys_ok p.2) repos = false →
  for_each (_from_data_step ms) repos acc w = (Raises TypeError, w).
Proof.
  revert acc. induction repos as [|[k d] repos IH]; intros acc Hall; [done|].
  simpl in Hall. simpl. unfold _from_data_step at 1. run.
  destruct (details_keys_ok d) eqn:Hd.
  - rewrite MaintenanceEntry_unpack_ok by done. by apply IH.
  - by rewrite MaintenanceEntry_unpack_bad.
Qed.

Lemma world_after_creates (m : M ref) w r :
  creates m w r →
  world_after m w = mkWorld (clock w) (heap w ++ [r]) (log w) ∧
  heap (world_after m w) !! length (heap w) = Some r.
Proof.
  intros Hm. unfold world_after. rewrite Hm. simpl. split; [done|].
  by rewrite lookup_app_r, Nat.sub_diag.
Qed.

Lemma filter_valid_entries (P : MaintenanceEntry → Prop)
    `{∀ e, Decision (P e)} (l : list MaintenanceEntry) :
  NoDup (repo_id <$> l) → NoDup (repo_id <$> filter P l).
Proof.
  intros Hnd. eapply sublist_NoDup; [exact Hnd|].
  apply fmap_sublist, sublist_filter.
Qed.

(** * How the operations compose *)

(** X1.  [remove] called on the result of [add]: the entries are those
    [add] would give on the report without the removed ids and with the
    removed ids taken out of its argument; [last_updated] is the time of the
    [add], [last_updated_by] the owner of the [remove].  When every added id
    is removed again, what is left are the entries of the first report that
    are not removed, in reverse order. *)
Theorem remove_after_add ms w self r ids_add ids_rem kwargs kwargs' :
  heap w !! self = Some r →
  ∃ r2,
    creates (remove ms (length (heap w)) ids_rem kwargs')
      (world_after (add ms self ids_add kwargs) w) r2 ∧
    entries r2
    = reverse (keep_last
        (filter (λ e, repo_id e ∉ ids_rem) (entries r)
         ++ (added_entry ms kwargs <$> filter (λ id, id ∉ ids_rem) ids_add))) ∧
    last_updated r2 = PStr (clock w) ∧
    last_updated_by r2 = resolved_owner ms kwargs' ∧
    (valid_report r → (∀ id, id ∈ ids_add → id ∈ ids_rem) →
     entries r2 = reverse (filter (λ e, repo_id e ∉ ids_rem) (entries r))).
Proof.
  intros Hself.
  pose proof (add_creates ms self r ids_add kwargs w Hself) as Hadd.
  destruct (world_after_creates _ _ _ Hadd) as [Hw1 Hself1].
  set (r1 := mkReport (PStr (clock w)) (resolved_owner ms kwargs)
               (reverse (keep_last
                  (entries r ++ (added_entry ms kwargs <$> ids_add))))) in *.
  assert (valid_report r1) as Hvalid1.
  { unfold valid_report. simpl. rewrite fmap_reverse, reverse_Permutation.
    apply keep_last_NoDup. }
  pose proof (remove_creates ms (length (heap w)) r1 ids_rem kwargs' _
                Hself1 Hvalid1) as Hrem.
  eexists. split; [exact Hrem|]. simpl.
  assert (filter (λ e, repo_id e ∉ ids_rem)
            (reverse (keep_last
               (entries r ++ (added_entry ms kwargs <$> ids_add))))
          = reverse (keep_last
              (filter (λ e, repo_id e ∉ ids_rem) (entries r)
               ++ (added_entry ms kwargs
                     <$> filter (λ id, id ∉ ids_rem) ids_add)))) as Hent.
  { rewrite filter_reverse.
    rewrite keep_last_filter_notin.
    by rewrite filter_app, filter_added_notin. }
  split_and!; [exact Hent|done|done|].
  intros Hvalid Hsub. rewrite Hent.
  rewrite (filter_none (λ id, id ∉ ids_rem) ids_add)
    by (intros id Hid Hnot; by apply Hnot, Hsub).
  simpl. rewrite app_nil_r. rewrite keep_last_id; [done|].
  by apply filter_valid_entries.
Qed.

Lemma remove_after_add_witness :
  heap sample_world !! 0 = Some sample_report ∧
  valid_report sample_report ∧
  (∀ id, id ∈ ["repoB"; "repoC"] → id ∈ ["repoC"; "repoB"; "repoZ"]) ∧
  ∃ r2,
    creates (remove sample_module 1 ["repoC"; "repoB"; "repoZ"] [])
      (world_after (add sample_module 0 ["repoB"; "repoC"] []) sample_world)
      r2 ∧
    entries r2 = entries sample_report ∧
    last_updated r2 = PStr "2021-06-15T12:00:00Z".
Proof.
  assert (∀ id, id ∈ ["repoB"; "repoC"] → id ∈ ["repoC"; "repoB"; "repoZ"])
    as Hsub.
  { intros id Hid.
    apply elem_of_cons in Hid as [->|Hid]; [right; left|].
    apply elem_of_cons in Hid as [->|Hid]; [left|].
    by apply not_elem_of_nil in Hid. }
  split_and!; [reflexivity|exact sample_report_valid|exact Hsub|].
  destruct (remove_after_add sample_module sample_world 0 sample_report
              ["repoB"; "repoC"] ["repoC"; "repoB"; "repoZ"] [] [] eq_refl)
    as (r2 & Hc & _ & Hlu & _ & Hall).
  exists r2. split_and!; [exact Hc| |exact Hlu].
  rewrite (Hall sample_report_valid Hsub). vm_compute. reflexivity.
Defined.

(** X2.  [add] leaves the entries it is not asked about as they are: the
    entries of the result whose id is not in [repo_ids] are the entries of
    the report whose id is not in [repo_ids], in reverse order. *)
Theorem add_keeps_other_entries ms w self r repo_ids kwargs :
  heap w !! self = Some r →
  valid_report r →
  ∃ r', creates (add ms self repo_ids kwargs) w r' ∧
    filter (λ e, repo_id e ∉ repo_ids) (entries r')
    = reverse (filter (λ e, repo_id e ∉ repo_ids) (entries r)).
Proof.
  intros Hself Hvalid. eexists. split; [by apply add_creates|]. simpl.
  rewrite filter_reverse, keep_last_filter_notin.
  rewrite filter_app, filter_added_notin.
  rewrite (filter_none (λ id, id ∉ repo_ids) repo_ids)
    by (intros id Hid Hnot; by apply Hnot).
  simpl. rewrite app_nil_r, keep_last_id; [done|].
  by apply filter_valid_entries.
Qed.

Lemma add_keeps_other_entries_witness :
  heap sample_two_world !! 0 = Some sample_two_report ∧
  valid_report sample_two_report ∧
  ∃ r', creates (add sample_module 0 ["repoB"; "repoC"] []) sample_two_world r' ∧
    filter (λ e, repo_id e ∉ ["repoB"; "repoC"]) (entries r')
    = [mkEntry "repoA" (PStr "testing") (PStr "carol")
         (PStr "2020-03-01T10:00:00Z")].
Proof.
  assert (valid_report sample_two_report) as Hvalid.
  { apply (bool_decide_unpack _). vm_compute. exact I. }
  split_and!; [reflexivity|exact Hvalid|].
  destruct (add_keeps_other_entries sample_module sample_two_world 0
              sample_two_report ["repoB"; "repoC"] [] eq_refl Hvalid)
    as (r' & Hc & Hkeep).
  exists r'. split; [exact Hc|]. rewrite Hkeep. vm_compute. reflexivity.
Defined.

(** X3.  The ids of the report [add] returns are the ids of the report it
    was called on together with [repo_ids], each once: the number of entries
    is the number of distinct ids among them. *)
Theorem add_entry_ids ms w self r repo_ids kwargs :
  heap w !! self = Some r →
  ∃ r', creates (add ms self repo_ids kwargs) w r' ∧
    (∀ id, id ∈ repo_id <$> entries r'
           ↔ id ∈ repo_id <$> entries r ∨ id ∈ repo_ids) ∧
    length (entries r')
    = size (list_to_set ((repo_id <$> entries r) ++ repo_ids) : gset string).
Proof.
  intros Hself. eexists. split; [by apply add_creates|]. simpl.
  assert (∀ id,
            id ∈ repo_id <$> reverse (keep_last
                    (entries r ++ (added_entry ms kwargs <$> repo_ids)))
            ↔ id ∈ repo_id <$> entries r ∨ id ∈ repo_ids) as Hids.
  { intros id. rewrite fmap_reverse, elem_of_reverse, keep_last_ids.
    by rewrite fmap_app, added_entry_ids, elem_of_app. }
  split; [exact Hids|].
  rewrite <- (length_fmap repo_id).
  rewrite NoDup_length_size.
  - f_equal. apply set_eq. intros id.
    by rewrite !elem_of_list_to_set, Hids, elem_of_app.
  - rewrite fmap_reverse, reverse_Permutation. apply keep_last_NoDup.
Qed.

Lemma add_entry_ids_witness :
  heap sample_two_world !! 0 = Some sample_two_report ∧
  ∃ r', creates (add sample_module 0 ["repoB"; "repoC"; "repoB"] [])
          sample_two_world r' ∧
    length (entries r') = 3.
Proof.
  split; [reflexivity|].
  destruct (add_entry_ids sample_module sample_two_world 0 sample_two_report
              ["repoB"; "repoC"; "repoB"] [] eq_refl) as (r' & Hc & _ & Hlen).
  exists r'. split; [exact Hc|]. rewrite Hlen. vm_compute. reflexivity.
Defined.

(** X4.  [add] with no ids is no identity: it returns the entries in
    reverse order, stamped with the time of the call and the resolved owner.
    Calling it on its own result gives the entries back in their first
    order. *)
Theorem add_nothing_reverses ms w self r kwargs kwargs' :
  heap w !! self = Some r →
  valid_report r →
  ∃ r1 r2,
    creates (add ms self [] kwargs) w r1 ∧
    entries r1 = reverse (entries r) ∧
    last_updated r1 = PStr (clock w) ∧
    last_updated_by r1 = resolved_owner ms kwargs ∧
    creates (add ms (length (heap w)) [] kwargs')
      (world_after (add ms self [] kwargs) w) r2 ∧
    entries r2 = entries r.
Proof.
  intros Hself Hvalid.
  pose proof (add_creates ms self r [] kwargs w Hself) as Hadd.
  rewrite fmap_nil, app_nil_r, keep_last_id in Hadd by done.
  destruct (world_after_creates _ _ _ Hadd) as [Hw1 Hself1].
  pose proof (add_creates ms (length (heap w)) _ [] kwargs' _ Hself1) as Hadd2.
  rewrite fmap_nil, app_nil_r in Hadd2. cbn [entries] in Hadd2.
  rewrite keep_last_id, reverse_involutive in Hadd2
    by by rewrite fmap_reverse, reverse_Permutation.
  eexists _, _. split; [exact Hadd|].
  split_and!; [done|done|done|exact Hadd2|done].
Qed.

Lemma sample_two_report_valid : valid_report sample_two_report.
Proof. apply (bool_decide_unpack _). vm_compute. exact I. Qed.

Lemma add_nothing_reverses_witness :
  heap sample_two_world !! 0 = Some sample_two_report ∧
  valid_report sample_two_report ∧
  ∃ r1, creates (add sample_module 0 [] []) sample_two_world r1 ∧
    repo_id <$> entries r1 = ["repoB"; "repoA"].
Proof.
  split_and!; [reflexivity|exact sample_two_report_valid|].
  destruct (add_nothing_reverses sample_module sample_two_world 0
              sample_two_report [] [] eq_refl sample_two_report_valid)
    as (r1 & _ & Hc & Hent & _).
  exists r1. split; [exact Hc|]. rewrite Hent. vm_compute. reflexivity.
Defined.

(** X5.  Two calls of [remove] in a row remove what one call with both
    lists removes; no id of either list is left, nothing is left that was
    not there, and [last_updated] is still the one of the first report.
    Removing ids that are already gone changes no entry. *)
Theorem remove_twice ms w self r ids1 ids2 kwargs kwargs' :
  heap w !! self = Some r →
  valid_report r →
  ∃ r2,
    creates (remove ms (length (heap w)) ids2 kwargs')
      (world_after (remove ms self ids1 kwargs) w) r2 ∧
    entries r2 = filter (λ e, repo_id e ∉ ids1 ++ ids2) (entries r) ∧
    (∀ e, e ∈ entries r2 →
       (repo_id e ∉ ids1) ∧ (repo_id e ∉ ids2) ∧ e ∈ entries r) ∧
    last_updated r2 = last_updated r ∧
    last_updated_by r2 = resolved_owner ms kwargs' ∧
    ((∀ id, id ∈ ids2 → id ∈ ids1) →
     entries r2 = filter (λ e, repo_id e ∉ ids1) (entries r)).
Proof.
  intros Hself Hvalid.
  pose proof (remove_creates ms self r ids1 kwargs w Hself Hvalid) as Hrem.
  destruct (world_after_creates _ _ _ Hrem) as [Hw1 Hself1].
  set (r1 := mkReport (last_updated r) (resolved_owner ms kwargs)
               (filter (λ e, repo_id e ∉ ids1) (entries r))) in *.
  assert (valid_report r1) as Hvalid1 by by apply filter_valid_entries.
  pose proof (remove_creates ms (length (heap w)) r1 ids2 kwargs' _
                Hself1 Hvalid1) as Hrem2.
  eexists. split; [exact Hrem2|]. simpl.
  assert (filter (λ e, repo_id e ∉ ids2)
            (filter (λ e, repo_id e ∉ ids1) (entries r))
          = filter (λ e, repo_id e ∉ ids1 ++ ids2) (entries r)) as Hent.
  { rewrite list_filter_filter. apply filter_equiv. intros e _.
    rewrite elem_of_app. tauto. }
  rewrite Hent. split_and!; [done| |done|done|].
  - intros e [Hnot Hin]%list_elem_of_filter.
    rewrite elem_of_app in Hnot. tauto.
  - intros Hsub. apply filter_equiv. intros e _.
    rewrite elem_of_app. split; [tauto|].
    intros Hnot [H1|H2]; [done|]. by apply Hnot, Hsub.
Qed.

Lemma remove_twice_witness :
  heap sample_two_world !! 0 = Some sample_two_report ∧
  valid_report sample_two_report ∧
  ∃ r2,
    creates (remove sample_module 1 ["repoB"] [])
      (world_after (remove sample_module 0 ["repoA"] []) sample_two_world)
      r2 ∧
    entries r2 = [] ∧
    last_updated r2 = PStr "2020-03-01T10:00:00Z".
Proof.
  split_and!; [reflexivity|exact sample_two_report_valid|].
  destruct (remove_twice sample_module sample_two_world 0 sample_two_report
              ["repoA"] ["repoB"] [] [] eq_refl sample_two_report_valid)
    as (r2 & Hc & Hent & _ & Hlu & _).
  exists r2. split_and!; [exact Hc| |exact Hlu].
  rewrite Hent. vm_compute. reflexivity.
Defined.

(** X7.  Constructing a report directly from entries with pairwise
    distinct ids returns a new object that holds the arguments given and the
    defaults for those left out: no entries, no [last_updated_by], and as
    [last_updated] the time at which the module was imported, whatever the
    clock reads at the construction. *)
Theorem MaintenanceReport_new_defaults environ w_import ms w_import'
    lu lub es w :
  import_module environ w_import = (Returns ms, w_import') →
  NoDup (repo_id <$> default [] es) →
  creates (MaintenanceReport_new ms lu lub es) w
    (mkReport (default (PStr (clock w_import)) lu) (default PNone lub)
       (default [] es)).
Proof.
  intros Himport Hnd.
  unfold import_module, iso_time_now in Himport. run.
  injection Himport as <- <-. unfold MaintenanceReport_new. run.
  by rewrite check_duplicates_ok.
Qed.

Lemma MaintenanceReport_new_defaults_witness :
  let w_import := mkWorld "2020-01-01T00:00:00Z" [] [] in
  import_module ∅ w_import
  = (Returns (mkModule None None "2020-01-01T00:00:00Z" "2020-01-01T00:00:00Z"),
     w_import) ∧
  NoDup (repo_id <$> default [] (None : option (list MaintenanceEntry))) ∧
  creates (MaintenanceReport_new
             (mkModule None None "2020-01-01T00:00:00Z" "2020-01-01T00:00:00Z")
             None None None) sample_world
    (mkReport (PStr "2020-01-01T00:00:00Z") PNone []).
Proof.
  intros w_import.
  assert (NoDup (repo_id <$> default [] (None : option (list MaintenanceEntry))))
    as Hnd by constructor.
  split_and!; [vm_compute; reflexivity|exact Hnd|].
  exact (MaintenanceReport_new_defaults ∅ w_import _ w_import None None None
           sample_world eq_refl Hnd).
Defined.

(** * Exporting *)

(** X8.  [_export_dict] of a report with pairwise distinct ids gives the
    three top-level keys in a fixed order; the keys of [repos] are the ids
    of the entries in the order of the entries, and each id maps to the
    three fields of its entry.  The world is left as it was. *)
Theorem _export_dict_entries self r w :
  heap w !! self = Some r →
  valid_report r →
  ∃ repos,
    _export_dict self w
    = (Returns (PDict [("last_updated", last_updated r);
                       ("last_updated_by", last_updated_by r);
                       ("repos", PDict repos)]), w) ∧
    PyDict.keys repos = repo_id <$> entries r ∧
    ∀ e, e ∈ entries r →
      PyDict.get repos (repo_id e)
      = Some (PDict [("message", message e);
                     ("owner", owner e);
                     ("started", started e)]).
Proof.
  intros Hself Hvalid. exists (item_of_entry <$> entries r).
  split_and!.
  - by apply _export_dict_run.
  - apply keys_item_of_entry.
  - intros e He. by rewrite get_item_of_entry.
Qed.

Lemma _export_dict_entries_witness :
  heap sample_two_world !! 0 = Some sample_two_report ∧
  valid_report sample_two_report ∧
  ∃ repos exported,
    _export_dict 0 sample_two_world = (Returns exported, sample_two_world) ∧
    py_field exported "repos" = Some (PDict repos) ∧
    PyDict.keys repos = ["repoA"; "repoB"].
Proof.
  split_and!; [reflexivity|exact sample_two_report_valid|].
  destruct (_export_dict_entries 0 sample_two_report sample_two_world eq_refl
              sample_two_report_valid) as (repos & Hrun & Hkeys & _).
  exists repos. eexists. split_and!; [exact Hrun|reflexivity|exact Hkeys].
Defined.

(** X9.  Exporting the result of [add]: under every id given to [add] the
    exported [repos] holds the call's resolved message and owner and, as
    [started], the default fixed at import; the exported [last_updated] is
    the time of the call. *)
Theorem export_after_add ms w self r repo_ids kwargs repo :
  heap w !! self = Some r →
  repo ∈ repo_ids →
  ∃ exported repos,
    _export_dict (length (heap w))
      (world_after (add ms self repo_ids kwargs) w)
    = (Returns exported, world_after (add ms self repo_ids kwargs) w) ∧
    py_field exported "last_updated" = Some (PStr (clock w)) ∧
    py_field exported "last_updated_by" = Some (resolved_owner ms kwargs) ∧
    py_field exported "repos" = Some (PDict repos) ∧
    PyDict.get repos repo
    = Some (PDict [("message", resolved_message kwargs);
                   ("owner", resolved_owner ms kwargs);
                   ("started", PStr (started_default ms))]).
Proof.
  intros Hself Hin.
  pose proof (add_creates ms self r repo_ids kwargs w Hself) as Hadd.
  destruct (world_after_creates _ _ _ Hadd) as [_ Hself1].
  set (es := reverse (keep_last
                (entries r ++ (added_entry ms kwargs <$> repo_ids)))) in *.
  assert (NoDup (repo_id <$> es)) as Hnd.
  { unfold es. rewrite fmap_reverse, reverse_Permutation.
    apply keep_last_NoDup. }
  eexists _, (item_of_entry <$> es).
  split; [by apply (_export_dict_run _ _ _ Hself1)|].
  split_and!; [done|done|done|].
  assert (added_entry ms kwargs repo ∈ es) as Hmem.
  { assert (added_entry ms kwargs repo
            ∈ filter (λ e, repo_id e = repo) es) as Hf.
    { unfold es. rewrite add_entries_for by done. left. }
    by apply list_elem_of_filter in Hf as [_ ?]. }
  exact (get_item_of_entry es (added_entry ms kwargs repo) Hnd Hmem).
Qed.

Lemma export_after_add_witness :
  heap sample_world !! 0 = Some sample_report ∧
  "repoA" ∈ ["repoB"; "repoA"] ∧
  ∃ exported repos,
    _export_dict 1
      (world_after (add sample_module 0 ["repoB"; "repoA"]
                      [("message", PStr "upgrade")]) sample_world)
    = (Returns exported,
       world_after (add sample_module 0 ["repoB"; "repoA"]
                      [("message", PStr "upgrade")]) sample_world) ∧
    py_field exported "repos" = Some (PDict repos) ∧
    PyDict.get repos "repoA"
    = Some (PDict [("message", PStr "upgrade");
                   ("owner", PStr "alice@builder01");
                   ("started", PStr "2020-01-01T00:00:00Z")]).
Proof.
  assert ("repoA" ∈ ["repoB"; "repoA"]) as Hin by (right; left).
  split_and!; [reflexivity|exact Hin|].
  destruct (export_after_add sample_module sample_world 0 sample_report
              ["repoB"; "repoA"] [("message", PStr "upgrade")] "repoA"
              eq_refl Hin)
    as (exported & repos & Hrun & _ & _ & Hrepos & Hget).
  exists exported, repos. exact (conj Hrun (conj Hrepos Hget)).
Defined.

(** X10.  Exporting the result of [remove]: the exported [repos] has no
    key among the removed ids, and under every other id it holds what the
    export of the report itself holds; [last_updated] is exported
    unchanged. *)
Theorem export_after_remove ms w self r repo_ids kwargs :
  heap w !! self = Some r →
  valid_report r →
  ∃ exported repos exported0 repos0,
    _export_dict (length (heap w))
      (world_after (remove ms self repo_ids kwargs) w)
    = (Returns exported, world_after (remove ms self repo_ids kwargs) w) ∧
    _export_dict self w = (Returns exported0, w) ∧
    py_field exported "repos" = Some (PDict repos) ∧
    py_field exported0 "repos" = Some (PDict repos0) ∧
    py_field exported "last_updated" = py_field exported0 "last_updated" ∧
    py_field exported "last_updated_by" = Some (resolved_owner ms kwargs) ∧
    (∀ id, id ∈ repo_ids → PyDict.get repos id = None) ∧
    (∀ id, id ∉ repo_ids → PyDict.get repos id = PyDict.get repos0 id).
Proof.
  intros Hself Hvalid.
  pose proof (remove_creates ms self r repo_ids kwargs w Hself Hvalid) as Hrem.
  destruct (world_after_creates _ _ _ Hrem) as [_ Hself1].
  eexists _, (item_of_entry <$> filter (λ e, repo_id e ∉ repo_ids) (entries r)),
    _, (item_of_entry <$> entries r).
  split.
  { apply (_export_dict_run _ _ _ Hself1). by apply filter_valid_entries. }
  split; [by apply _export_dict_run|].
  split_and!; [done|done|done|done| |].
  - intros id Hid. apply get_item_absent.
    intros (e & -> & [Hnot _]%list_elem_of_filter)%list_elem_of_fmap. done.
  - intros id Hid. exact (get_item_filter (λ k, k ∉ repo_ids) _ id Hid).
Qed.

Lemma export_after_remove_witness :
  heap sample_two_world !! 0 = Some sample_two_report ∧
  valid_report sample_two_report ∧
  ∃ exported repos,
    _export_dict 1
      (world_after (remove sample_module 0 ["repoA"] []) sample_two_world)
    = (Returns exported,
       world_after (remove sample_module 0 ["repoA"] []) sample_two_world) ∧
    py_field exported "repos" = Some (PDict repos) ∧
    PyDict.get repos "repoA" = None.
Proof.
  split_and!; [reflexivity|exact sample_two_report_valid|].
  destruct (export_after_remove sample_module sample_two_world 0
              sample_two_report ["repoA"] [] eq_refl sample_two_report_valid)
    as (exported & repos & _ & _ & Hrun & _ & Hrepos & _ & _ & _ & Hgone & _).
  exists exported, repos. split_and!; [exact Hrun|exact Hrepos|].
  apply Hgone. left.
Defined.

(** * The factory on whatever the validator lets through *)

Section from_data_any_validator.
Variable validate : pyval → option string.
Variables (ms : ModuleState) (cls_name : string).

Lemma _from_data_accepted data lu lub repos w :
  validate data = None →
  py_field data "last_updated" = Some lu →
  py_field data "last_updated_by" = Some lub →
  py_field data "repos" = Some (PDict repos) →
  NoDup (PyDict.keys repos) →
  forallb (λ p, details_keys_ok p.2) repos = true →
  creates (_from_data validate ms cls_name data) w
    (mkReport lu lub (unpacked_entry ms <$> repos)).
Proof.
  intros Hv Hlu Hlub Hrepos Hnd Hall. unfold _from_data. rewrite Hv.
  destruct data as [| | | | |top]; try done. simpl in *.
  run. rewrite Hrepos. simpl.
  rewrite from_data_loop_ok by done. rewrite Hlu, Hlub. simpl.
  apply MaintenanceReport_new_creates.
  rewrite <- list_fmap_compose. by unfold PyDict.keys in Hnd.
Qed.

Lemma _from_data_rejected_details data repos w :
  validate data = None →
  py_field data "repos" = Some (PDict repos) →
  forallb (λ p, details_keys_ok p.2) repos = false →
  _from_data validate ms cls_name data w = (Raises TypeError, w).
Proof.
  intros Hv Hrepos Hall. unfold _from_data. rewrite Hv.
  destruct data as [| | | | |top]; try done. simpl in *.
  run. rewrite Hrepos. simpl. by rewrite from_data_loop_bad.
Qed.
End from_data_any_validator.

(** X11.  Importing what [_export_dict] wrote gives the report back: for
    a report with pairwise distinct ids, [_from_data] on its export, once
    the validator accepts it, returns a new report equal to it, entries in
    the same order. *)
Theorem from_data_export_roundtrip
    (validate : pyval → option string) ms cls_name self r w :
  heap w !! self = Some r →
  valid_report r →
  ∃ exported,
    _export_dict self w = (Returns exported, w) ∧
    (validate exported = None →
     creates (_from_data validate ms cls_name exported) w r).
Proof.
  intros Hself Hvalid. eexists. split; [by apply _export_dict_run|].
  intros Hv.
  assert (unpacked_entry ms <$> (item_of_entry <$> entries r) = entries r)
    as Hback.
  { rewrite <- list_fmap_compose. rewrite <- (list_fmap_id (entries r)) at 2.
    apply list_fmap_ext. intros _ e _. by destruct e. }
  destruct r as [lu lub es]. simpl in *. rewrite <- Hback at 2.
  apply _from_data_accepted; [done|done|done|done| |].
  - by rewrite keys_item_of_entry.
  - apply forallb_forall. intros item Hitem%list_elem_of_In.
    by apply list_elem_of_fmap in Hitem as (e & -> & _).
Qed.

Lemma from_data_export_roundtrip_witness :
  heap sample_two_world !! 0 = Some sample_two_report ∧
  valid_report sample_two_report ∧
  ∃ exported,
    _export_dict 0 sample_two_world = (Returns exported, sample_two_world) ∧
    maintenance_validate exported = None ∧
    creates (_from_data maintenance_validate sample_module "MaintenanceReport"
               exported) sample_two_world sample_two_report.
Proof.
  split_and!; [reflexivity|exact sample_two_report_valid|].
  destruct (from_data_export_roundtrip maintenance_validate sample_module
              "MaintenanceReport" 0 sample_two_report sample_two_world
              eq_refl sample_two_report_valid) as (exported & Hrun & Hback).
  exists exported.
  assert (maintenance_validate exported = None) as Hv.
  { injection Hrun as <-. reflexivity. }
  exact (conj Hrun (conj Hv (Hback Hv))).
Defined.

(** X12.  On accepted data whose [repos] records use only the keys
    [message], [owner] and [started], [_from_data] returns a new report with
    the document's [last_updated] and [last_updated_by] and one entry per
    record, where a missing [message] or [owner] becomes [None] and a
    missing [started] becomes the default fixed when the module was
    imported. *)
Theorem from_data_fills_defaults
    (validate : pyval → option string) ms cls_name data lu lub repos w :
  validate data = None →
  py_field data "last_updated" = Some lu →
  py_field data "last_updated_by" = Some lub →
  py_field data "repos" = Some (PDict repos) →
  NoDup (PyDict.keys repos) →
  (∀ item, item ∈ repos → details_keys_ok item.2 = true) →
  ∃ r,
    creates (_from_data validate ms cls_name data) w r ∧
    last_updated r = lu ∧
    last_updated_by r = lub ∧
    Forall2
      (λ e item,
         repo_id e = item.1 ∧
         message e = default PNone (py_field item.2 "message") ∧
         owner e = default PNone (py_field item.2 "owner") ∧
         started e
         = default (PStr (started_default ms)) (py_field item.2 "started"))
      (entries r) repos.
Proof.
  intros Hv Hlu Hlub Hrepos Hnd Hall. eexists. split.
  - apply (_from_data_accepted validate ms cls_name data lu lub repos);
      try done.
    apply forallb_forall. intros item Hitem%list_elem_of_In. by apply Hall.
  - split_and!; [done|done|]. simpl. clear.
    induction repos as [|item repos IH]; [constructor|].
    rewrite fmap_cons. by constructor.
Qed.

Lemma from_data_fills_defaults_witness :
  permissive_validate sample_partial_raw = None ∧
  ∃ r,
    creates (_from_data permissive_validate sample_module "MaintenanceReport"
               sample_partial_raw) sample_world r ∧
    entries r
    = [mkEntry "repoA" (PStr "testing") (PStr "carol")
         (PStr "2020-03-01T10:00:00Z");
       mkEntry "repoB" PNone (PStr "dave") (PStr "2020-01-01T00:00:00Z")].
Proof.
  split; [reflexivity|].
  assert (NoDup (PyDict.keys
            [("repoA", PDict [("message", PStr "testing");
                              ("owner", PStr "carol");
                              ("started", PStr "2020-03-01T10:00:00Z")]);
             ("repoB", PDict [("owner", PStr "dave")])])) as Hnd.
  { apply (bool_decide_unpack _). vm_compute. exact I. }
  destruct (from_data_fills_defaults permissive_validate sample_module
              "MaintenanceReport" sample_partial_raw _ _ _ sample_world
              eq_refl eq_refl eq_refl eq_refl Hnd) as (r & Hc & _ & _ & Hall).
  { intros item Hitem.
    apply elem_of_cons in Hitem as [->|Hitem]; [reflexivity|].
    apply elem_of_cons in Hitem as [->|Hitem]; [reflexivity|].
    by apply not_elem_of_nil in Hitem. }
  exists r. split; [exact Hc|].
  apply Forall2_cons_inv_r in Hall as (e1 & es1 & H1 & Hall & ->).
  apply Forall2_cons_inv_r in Hall as (e2 & es2 & H2 & Hall & ->).
  apply Forall2_nil_inv_r in Hall as ->.
  destruct e1, e2. simpl in H1, H2.
  destruct H1 as (-> & -> & -> & ->), H2 as (-> & -> & -> & ->).
  reflexivity.
Defined.

(** X13.  When the validator accepts data in which some [repos] record
    is no mapping or has a key other than [message], [owner] and [started],
    [_from_data] raises [TypeError]; nothing is logged and no report is
    created. *)
Theorem from_data_unknown_key
    (validate : pyval → option string) ms cls_name data repos item w :
  validate data = None →
  py_field data "repos" = Some (PDict repos) →
  item ∈ repos →
  details_keys_ok item.2 = false →
  _from_data validate ms cls_name data w = (Raises TypeError, w).
Proof.
  intros Hv Hrepos Hitem Hbad.
  apply (_from_data_rejected_details validate ms cls_name data repos);
    [done|done|].
  destruct (forallb (λ p, details_keys_ok p.2) repos) eqn:Hall; [|done].
  rewrite forallb_forall in Hall.
  apply list_elem_of_In, Hall in Hitem. congruence.
Qed.

Lemma from_data_unknown_key_witness :
  permissive_validate sample_unknown_key_raw = None ∧
  details_keys_ok (PDict [("ended", PStr "2020-03-02T10:00:00Z")]) = false ∧
  _from_data permissive_validate sample_module "MaintenanceReport"
    sample_unknown_key_raw sample_world
  = (Raises TypeError, sample_world).
Proof.
  split_and!; [reflexivity|reflexivity|].
  apply (from_data_unknown_key permissive_validate sample_module
           "MaintenanceReport" sample_unknown_key_raw _
           ("repoB", PDict [("ended", PStr "2020-03-02T10:00:00Z")])
           sample_world eq_refl eq_refl); [|reflexivity].
  right. left.
Defined.

(** X14.  When the validator accepts a mapping that lacks one of the
    three top-level keys, [_from_data] raises [KeyError] for it: for [repos]
    before anything else, for [last_updated] and then [last_updated_by] once
    the records of [repos] have been turned into entries.  No report is
    created and nothing is logged. *)
Theorem from_data_missing_key
    (validate : pyval → option string) ms cls_name top w :
  validate (PDict top) = None →
  (PyDict.get top "repos" = None →
   _from_data validate ms cls_name (PDict top) w
   = (Raises (KeyError "repos"), w)) ∧
  (∀ repos,
     PyDict.get top "repos" = Some (PDict repos) →
     (∀ item, item ∈ repos → details_keys_ok item.2 = true) →
     (PyDict.get top "last_updated" = None →
      _from_data validate ms cls_name (PDict top) w
      = (Raises (KeyError "last_updated"), w)) ∧
     (is_Some (PyDict.get top "last_updated") →
      PyDict.get top "last_updated_by" = None →
      _from_data validate ms cls_name (PDict top) w
      = (Raises (KeyError "last_updated_by"), w))).
Proof.
  intros Hv. split.
  - intros Hnone. unfold _from_data. rewrite Hv. run. by rewrite Hnone.
  - intros repos Hrepos Hall.
    assert (forallb (λ p, details_keys_ok p.2) repos = true) as Hall'.
    { apply forallb_forall. intros item Hitem%list_elem_of_In.
      by apply Hall. }
    split.
    + intros Hnone. unfold _from_data. rewrite Hv. run. rewrite Hrepos.
      simpl. rewrite from_data_loop_ok by done. by rewrite Hnone.
    + intros [lu Hlu] Hnone. unfold _from_data. rewrite Hv. run.
      rewrite Hrepos. simpl. rewrite from_data_loop_ok by done.
      by rewrite Hlu, Hnone.
Qed.

Lemma from_data_missing_key_witness :
  permissive_validate (PDict [("last_updated", PStr "2020-03-01T10:00:00Z")])
  = None ∧
  _from_data permissive_validate sample_module "MaintenanceReport"
    (PDict [("last_updated", PStr "2020-03-01T10:00:00Z")]) sample_world
  = (Raises (KeyError "repos"), sample_world).
Proof.
  split; [reflexivity|].
  destruct (from_data_missing_key permissive_validate sample_module
              "MaintenanceReport"
              [("last_updated", PStr "2020-03-01T10:00:00Z")] sample_world
              eq_refl) as [Hrepos _].
  exact (Hrepos eq_refl).
Defined.

(** * [add] in closed form *)

Lemma keep_last_app_valid (l1 l2 : list MaintenanceEntry) :
  NoDup (repo_id <$> l1) →
  keep_last (l1 ++ l2)
  = filter (λ e, repo_id e ∉ repo_id <$> l2) l1 ++ keep_last l2.
Proof.
  induction l1 as [|e l1 IH]; [done|].
  rewrite fmap_cons, NoDup_cons. intros [Hnin Hnd]. simpl.
  rewrite filter_cons, IH by done.
  destruct (decide (repo_id e ∈ repo_id <$> l1 ++ l2)) as [Hin|Hout].
  - rewrite decide_False; [done|]. intros Hnot.
    rewrite fmap_app, elem_of_app in Hin. tauto.
  - rewrite decide_True; [done|]. intros Hin. apply Hout.
    rewrite fmap_app, elem_of_app. tauto.
Qed.

Lemma add_creates_valid ms w self r repo_ids kwargs :
  heap w !! self = Some r →
  valid_report r →
  creates (add ms self repo_ids kwargs) w
    (mkReport (PStr (clock w)) (resolved_owner ms kwargs)
       (reverse (keep_last (added_entry ms kwargs <$> repo_ids))
        ++ reverse (filter (λ e, repo_id e ∉ repo_ids) (entries r)))).
Proof.
  intros Hself Hvalid.
  pose proof (add_creates ms self r repo_ids kwargs w Hself) as Hadd.
  rewrite keep_last_app_valid, reverse_app in Hadd by done.
  by rewrite added_entry_ids in Hadd.
Qed.

(** X15.  [add] on a report with pairwise distinct ids, in closed form:
    the new entries in reverse [repo_ids] order (an id given several times
    standing at its last occurrence), followed by the entries of the report
    whose id is not in [repo_ids], in reverse order. *)
Theorem add_closed_form ms w self r repo_ids kwargs :
  heap w !! self = Some r →
  valid_report r →
  creates (add ms self repo_ids kwargs) w
    (mkReport (PStr (clock w)) (resolved_owner ms kwargs)
       (reverse (keep_last (added_entry ms kwargs <$> repo_ids))
        ++ reverse (filter (λ e, repo_id e ∉ repo_ids) (entries r)))).
Proof. intros Hself Hvalid. by apply add_creates_valid. Qed.

Lemma add_closed_form_witness :
  heap sample_two_world !! 0 = Some sample_two_report ∧
  valid_report sample_two_report ∧
  ∃ r', creates (add sample_module 0 ["repoC"; "repoA"; "repoC"] [])
          sample_two_world r' ∧
    repo_id <$> entries r' = ["repoC"; "repoA"; "repoB"].
Proof.
  split_and!; [reflexivity|exact sample_two_report_valid|].
  eexists. split.
  - exact (add_closed_form sample_module sample_two_world 0 sample_two_report
             ["repoC"; "repoA"; "repoC"] [] eq_refl sample_two_report_valid).
  - vm_compute. reflexivity.
Defined.

(** X16.  [add] replaces: removing the ids first and adding them then
    gives the report that adding them at once gives. *)
Theorem add_after_remove ms w self r repo_ids kwargs kwargs' :
  heap w !! self = Some r →
  valid_report r →
  ∃ r',
    creates (add ms self repo_ids kwargs) w r' ∧
    creates (add ms (length (heap w)) repo_ids kwargs)
      (world_after (remove ms self repo_ids kwargs') w) r'.
Proof.
  intros Hself Hvalid.
  pose proof (remove_creates ms self r repo_ids kwargs' w Hself Hvalid) as Hrem.
  destruct (world_after_creates _ _ _ Hrem) as [Hw1 Hself1].
  eexists. split; [by apply add_creates_valid|].
  assert (clock w = clock (world_after (remove ms self repo_ids kwargs') w))
    as Hclock by by rewrite Hw1.
  rewrite Hclock.
  assert (filter (λ e, repo_id e ∉ repo_ids) (entries r)
          = filter (λ e, repo_id e ∉ repo_ids)
              (filter (λ e, repo_id e ∉ repo_ids) (entries r))) as Hff.
  { symmetry. by apply list_filter_filter_r. }
  rewrite Hff.
  apply (add_creates_valid ms _ (length (heap w))
           (mkReport (last_updated r) (resolved_owner ms kwargs')
              (filter (λ e, repo_id e ∉ repo_ids) (entries r))));
    [exact Hself1|]. by apply filter_valid_entries.
Qed.

Lemma add_after_remove_witness :
  heap sample_two_world !! 0 = Some sample_two_report ∧
  valid_report sample_two_report ∧
  ∃ r',
    creates (add sample_module 0 ["repoA"] []) sample_two_world r' ∧
    creates (add sample_module 1 ["repoA"] [])
      (world_after (remove sample_module 0 ["repoA"] [("owner", PStr "bob")])
         sample_two_world) r'.
Proof.
  split_and!; [reflexivity|exact sample_two_report_valid|].
  exact (add_after_remove sample_module sample_two_world 0 sample_two_report
           ["repoA"] [] [("owner", PStr "bob")] eq_refl
           sample_two_report_valid).
Defined.

(** * The factory and the exporter on validated documents *)

Lemma complete_record_fields (d : pyval) :
  complete_record d = true →
  details_keys_ok d = true ∧
  ∃ m o s, py_field d "message" = Some m ∧ py_field d "owner" = Some o ∧
           py_field d "started" = Some s.
Proof.
  unfold complete_record. rewrite !andb_true_iff, !bool_decide_eq_true.
  intros [[[Hkeys [m Hm]] [o Ho]] [s Hs]]. split; [done|].
  by exists m, o, s.
Qed.

Lemma complete_document_fields (data : pyval) :
  complete_document data = true →
  ∃ lu lub repos,
    py_field data "last_updated" = Some lu ∧
    py_field data "last_updated_by" = Some lub ∧
    py_field data "repos" = Some (PDict repos) ∧
    forallb (λ p, complete_record p.2) repos = true.
Proof.
  unfold complete_document. rewrite !andb_true_iff, !bool_decide_eq_true.
  intros [[[lu Hlu] [lub Hlub]] Hrepos].
  destruct (py_field data "repos") as [[| | | | |repos]|]; try done.
  by exists lu, lub, repos.
Qed.

(** C7, as the code has it.  When the validator rejects [data] with a
    message, [_from_data] logs one record that starts with the class name
    and raises [InvalidDataException] with that message, and no report
    object is created.  When the validator accepts [data] and [data] has the
    keys [last_updated], [last_updated_by] and [repos], every record of
    [repos] being a mapping with no key besides [message], [owner] and
    [started], [_from_data] returns a new report with one entry for each
    item of [repos], in order: the key is the entry's [repo_id], and
    [message], [owner] and [started] are the values found under the key, or
    the attribute defaults where the record has none. *)
Theorem from_data_invalid_or_built
    (validate : pyval → option string) ms cls_name data w :
  (∀ error, validate data = Some error →
     _from_data validate ms cls_name data w
     = (Raises (InvalidDataException error),
        mkWorld (clock w) (heap w)
          (log w ++ [cls_name +:+ ".from_data invoked with invalid data"]))) ∧
  (validate data = None → wf_pyval data = true →
   ∀ lu lub repos,
     py_field data "last_updated" = Some lu →
     py_field data "last_updated_by" = Some lub →
     py_field data "repos" = Some (PDict repos) →
     (∀ item, item ∈ repos → details_keys_ok item.2 = true) →
     ∃ r,
       creates (_from_data validate ms cls_name data) w r ∧
       Forall2
         (λ e item,
            repo_id e = item.1 ∧
            message e = default PNone (py_field item.2 "message") ∧
            owner e = default PNone (py_field item.2 "owner") ∧
            started e
            = default (PStr (started_default ms))
                (py_field item.2 "started"))
         (entries r) repos).
Proof.
  split.
  - intros error Hv. by apply _from_data_invalid.
  - intros Hv Hwf lu lub repos Hlu Hlub Hrepos Hall. eexists. split.
    + apply (_from_data_accepted validate ms cls_name data lu lub repos);
        try done.
      * eapply wf_pyval_keys, wf_pyval_field; eauto.
      * apply forallb_forall. intros item Hitem%list_elem_of_In.
        by apply Hall.
    + simpl. clear. induction repos as [|item repos IH]; [constructor|].
      rewrite fmap_cons. by constructor.
Qed.

Lemma from_data_invalid_or_built_witness :
  is_Some (maintenance_validate sample_mistyped_raw) ∧
  (∃ error,
     _from_data maintenance_validate sample_module "MaintenanceReport"
       sample_mistyped_raw sample_world
     = (Raises (InvalidDataException error),
        mkWorld (clock sample_world) (heap sample_world)
          ["MaintenanceReport.from_data invoked with invalid data"])) ∧
  maintenance_validate sample_raw = None ∧
  wf_pyval sample_raw = true ∧
  (∃ r,
     creates (_from_data maintenance_validate sample_module "MaintenanceReport"
                sample_raw) sample_world r ∧
     repo_id <$> entries r = ["repoA"; "repoB"]).
Proof.
  pose proof (from_data_invalid_or_built maintenance_validate sample_module
                "MaintenanceReport") as Hthm.
  split_and!; [| |reflexivity|reflexivity|].
  - eexists. reflexivity.
  - eexists. destruct (Hthm sample_mistyped_raw sample_world) as [Hinv _].
    exact (Hinv _ eq_refl).
  - destruct (Hthm sample_raw sample_world) as [_ Hok].
    destruct (Hok eq_refl eq_refl _ _ _ eq_refl eq_refl eq_refl)
      as (r & Hc & Hall).
    { intros item Hitem.
      apply elem_of_cons in Hitem as [->|Hitem]; [reflexivity|].
      apply elem_of_cons in Hitem as [->|Hitem]; [reflexivity|].
      by apply not_elem_of_nil in Hitem. }
    exists r. split; [exact Hc|].
    rewrite (Forall2_repo_ids _ _ _ Hall). reflexivity.
Defined.

(** Counterexample to C7 as stated: the empty mapping has no field of a
    wrong type, so validation succeeds, and [_from_data] raises [KeyError]
    at [data["repos"]]. *)
Lemma from_data_accepted_raises_counterexample :
  wf_pyval (PDict []) = true ∧
  maintenance_validate (PDict []) = None ∧
  _from_data maintenance_validate sample_module "MaintenanceReport"
    (PDict []) sample_world
  = (Raises (KeyError "repos"), sample_world).
Proof. split_and!; reflexivity. Qed.

(** C1, as the code has it.  For a raw document the schema accepts that
    has the keys [last_updated], [last_updated_by] and [repos], every record
    of [repos] having exactly the keys [message], [owner] and [started],
    exporting the report built from it gives a document logically equal to
    it: same [last_updated], same [last_updated_by], and a [repos] mapping
    with the same keys, each with the same [message], [owner] and
    [started]. *)
Theorem export_from_data_roundtrip
    (validate : pyval → option string) ms cls_name raw w :
  wf_pyval raw = true →
  validate raw = None →
  complete_document raw = true →
  ∃ self w' exported,
    _from_data validate ms cls_name raw w = (Returns self, w') ∧
    _export_dict self w' = (Returns exported, w') ∧
    logically_equal exported raw.
Proof.
  intros Hwf Hv Hcomplete.
  destruct (complete_document_fields raw Hcomplete)
    as (lu & lub & repos & Hlu & Hlub & Hrepos & Hall).
  assert (NoDup (PyDict.keys repos)) as Hnd.
  { eapply wf_pyval_keys, wf_pyval_field; eauto. }
  assert (∀ item, item ∈ repos → complete_record item.2 = true) as Hrec.
  { intros item Hitem%list_elem_of_In. rewrite forallb_forall in Hall.
    by apply Hall. }
  assert (creates (_from_data validate ms cls_name raw) w
            (mkReport lu lub (unpacked_entry ms <$> repos))) as Hc.
  { apply _from_data_accepted; try done.
    apply forallb_forall. intros item Hitem%list_elem_of_In.
    by apply complete_record_fields, Hrec. }
  assert (repo_id <$> (unpacked_entry ms <$> repos) = PyDict.keys repos)
    as Hkeys.
  { unfold PyDict.keys. by rewrite <- list_fmap_compose. }
  destruct (creates_frame _ _ _ Hc) as (self & w' & Hrun & Hself & _).
  eexists self, w', _. split; [exact Hrun|].
  split.
  { apply (_export_dict_run self _ w' Hself).
    unfold valid_report. simpl. by rewrite Hkeys. }
  simpl. split_and!.
  - by exists lu.
  - by exists lub.
  - eexists _, repos. split_and!; [reflexivity|exact Hrepos| |].
    + intros k. unfold PyDict.keys. by rewrite <- !list_fmap_compose.
    + intros k Hk.
      assert (k ∈ PyDict.keys repos) as Hk'.
      { revert Hk. unfold PyDict.keys. by rewrite <- !list_fmap_compose. }
      apply get_is_Some in Hk' as [d Hd].
      set (h := λ (_ : string) d,
             PDict [("message", default PNone (py_field d "message"));
                    ("owner", default PNone (py_field d "owner"));
                    ("started", default (PStr (started_default ms))
                                  (py_field d "started"))]).
      assert (item_of_entry <$> (unpacked_entry ms <$> repos)
              = (λ p, (p.1, h p.1 p.2)) <$> repos) as ->.
      { by rewrite <- list_fmap_compose. }
      rewrite get_fmap_values, Hd. exists (h k d), d.
      destruct (complete_record_fields d (Hrec (k, d) (get_Some_elem _ _ _ Hd)))
        as (_ & m & o & s & Hm & Ho & Hs).
      split_and!; [done|done| | |].
      * exists m. split; [|done]. simpl. by rewrite Hm.
      * exists o. split; [|done]. simpl. by rewrite Ho.
      * exists s. split; [|done]. simpl. by rewrite Hs.
Qed.

Lemma export_from_data_roundtrip_witness :
  wf_pyval sample_raw = true ∧
  maintenance_validate sample_raw = None ∧
  complete_document sample_raw = true ∧
  ∃ self w' exported,
    _from_data maintenance_validate sample_module "MaintenanceReport"
      sample_raw sample_world = (Returns self, w') ∧
    _export_dict self w' = (Returns exported, w') ∧
    logically_equal exported sample_raw.
Proof.
  split_and!; [reflexivity|reflexivity|reflexivity|].
  exact (export_from_data_roundtrip maintenance_validate sample_module
           "MaintenanceReport" sample_raw sample_world eq_refl eq_refl
           eq_refl).
Defined.

(** Counterexample to C1 as stated: a document whose record for [repoA]
    has no [started] is accepted; the entry built from it takes the default
    of [started], the export writes it, and the exported record carries a
    [started] that the raw record does not have. *)
Lemma roundtrip_missing_started_counterexample :
  wf_pyval sample_no_started_raw = true ∧
  maintenance_validate sample_no_started_raw = None ∧
  ∃ self w' exported,
    _from_data maintenance_validate sample_module "MaintenanceReport"
      sample_no_started_raw sample_world = (Returns self, w') ∧
    _export_dict self w' = (Returns exported, w') ∧
    py_field exported "repos"
    = Some (PDict [("repoA", PDict [("message", PStr "testing");
                                    ("owner", PStr "carol");
                                    ("started", PStr "2020-01-01T00:00:00Z")])]) ∧
    ¬ logically_equal exported sample_no_started_raw.
Proof.
  split_and!; [reflexivity|reflexivity|].
  eexists _, _, _. split; [vm_compute; reflexivity|].
  split; [vm_compute; reflexivity|]. split; [reflexivity|].
  intros (_ & _ & ra & rb & Hra & Hrb & _ & Hrec).
  injection Hra as <-. injection Hrb as <-.
  destruct (Hrec "repoA") as (da & db & Hda & Hdb & _ & _ & s & _ & Hs).
  { left. }
  injection Hdb as <-. discriminate Hs.
Qed.
